(** * Presence, focus and message delivery of the marketplace backend

    A shallow embedding of [src/config/socket.js] (the Socket.IO layer) and of
    the message controller (the REST handlers [sendMessage], [deleteMessage]
    and [markAsRead]), with the properties of the chat subsystem stated over
    it.

    - The two exported maps [onlineUsers] and [activeConversations] are finite
      maps keyed by [socket.userId], a string or [undefined].
    - A socket handler is a function from the server state to the new state
      and the list of the events it emits; a trace of socket events is run
      from the initial state.
    - A REST handler is a computation in a monad of store, emitted events and
      exceptions; what it throws is what [asyncHandler] passes on to the error
      middleware. It reads the two maps as they are at one instant.
    - The collaborators that are libraries or outside the sources (token
      verification, the message and account collections, the mail transport)
      are parameters: they answer, or they fail. *)

From Stdlib Require Import Ascii String List.
From stdpp Require Import base option gmap strings list fin_maps.
Import ListNotations.

Local Open Scope string_scope.
Local Open Scope list_scope.

(** ** JavaScript values used by the code *)

(** A value that is either a string or [undefined]. *)
Definition JsStr : Type := option string.

(** Truthiness of a string-or-undefined value: [undefined] and the empty
    string are falsy. *)
Definition truthy (v : JsStr) : bool :=
  match v with
  | Some s => negb (String.eqb s "")
  | None => false
  end.

(** [a || b] on string-or-undefined values. *)
Definition js_or (a b : JsStr) : JsStr := if truthy a then a else b.

(** [Array.prototype.sort()] with the default comparator, on an array of
    strings: a stable sort by code-unit order. *)
Fixpoint sort_insert (x : string) (l : list string) : list string :=
  match l with
  | [] => [x]
  | y :: l' => if String.leb x y then x :: l else y :: sort_insert x l'
  end.

Fixpoint js_sort (l : list string) : list string :=
  match l with
  | [] => []
  | x :: l' => sort_insert x (js_sort l')
  end.

(** [Array.prototype.join(sep)]. *)
Definition js_join (sep : string) (l : list string) : string :=
  String.concat sep l.

(** [String.prototype.split(sep)] for a one-character separator. *)
Fixpoint js_split (sep : ascii) (s : string) : list string :=
  match s with
  | EmptyString => [EmptyString]
  | String c rest =>
      if Ascii.eqb c sep then EmptyString :: js_split sep rest
      else match js_split sep rest with
           | piece :: pieces => String c piece :: pieces
           | [] => [String c EmptyString]
           end
  end.

(** The separator of conversation identifiers. *)
Definition SEP : ascii := "_"%char.

(** [[senderId, recipient].sort().join('_')] (message controller, [sendMessage]). *)
Definition conversationId (senderId recipient : string) : string :=
  js_join "_" (js_sort [senderId; recipient]).

(** [const [user1, user2] = conversationId.split('_');
     const otherUserId = user1 === userId ? user2 : user1;]
    as written in both [markAsRead] handlers. *)
Definition otherUserId (conversationId : string) (userId : JsStr) : JsStr :=
  let parts := js_split SEP conversationId in
  let user1 := nth_error parts 0 in
  let user2 := nth_error parts 1 in
  if decide (user1 = userId) then user2 else user1.


(** ** The Socket.IO layer ([src/config/socket.js]) *)

(** The claims carried by a verified token. *)
Record JwtPayload := {
  claim_userId : JsStr;
  claim_id : JsStr;
  claim__id : JsStr;
}.

(** A connected socket: its Socket.IO id and the [userId] the
    authentication middleware attached to it. *)
Record Socket := {
  socket_id : string;
  socket_userId : JsStr;
}.

(** The process-wide state of the live layer: what Socket.IO keeps of each
    live socket (the [userId] attached to it and the rooms it is in), and the
    two exported maps of [socket.js]. *)
Record Server := {
  sockets : gmap string JsStr;             (* socket id -> socket.userId *)
  rooms : gmap string (gset JsStr);        (* socket id -> socket.rooms *)
  onlineUsers : gmap JsStr string;         (* userId -> socketId *)
  activeConversations : gmap JsStr string; (* userId -> conversationId *)
}.

Definition initial_server : Server :=
  {| sockets := ∅; rooms := ∅; onlineUsers := ∅; activeConversations := ∅ |}.

(** A message relayed as-is by the socket-originated [sendMessage] event. *)
Record RelayedMessage := {
  relayed_recipient : JsStr;
  relayed_body : string;
}.

(** What [newMessage] carries from the REST path. Populated sub-documents
    are represented by the identity they were populated from. *)
Record NewMessagePayload := {
  nm__id : nat;
  nm_sender : string;
  nm_recipient : string;
  nm_messageText : JsStr;
  nm_product : JsStr;
  nm_image : JsStr;
  nm_images : option (list string);
  nm_isRead : bool;
  nm_readAt : option nat;
  nm_createdAt : nat;
  nm_conversationId : string;
}.

(** Events of the wire protocol, by name. *)
Inductive Event :=
| onlineUsersEv (userIds : gset JsStr)
| userTyping (conversationId : string) (userId : JsStr) (isTyping : bool)
| messagesRead (conversationId : string) (readBy : JsStr)
               (messageIds : option (list nat))
| newMessage (payload : NewMessagePayload)
| newMessageRelayed (message : RelayedMessage)
| messageSent (message : RelayedMessage)
| messageDeleted (messageId : nat).

(** The audience of an emit: [io.emit], [io.to(room).emit], [socket.emit]. *)
Inductive Target :=
| ToAll
| ToRoom (room : JsStr)
| ToSocket (socketId : string).

Record Emit := { target : Target; event : Event }.

(** [io.emit('onlineUsers', Array.from(onlineUsers.keys()))]; the array is
    kept as the set of its elements. *)
Definition broadcastOnlineUsers (s : Server) : Emit :=
  {| target := ToAll; event := onlineUsersEv (dom (onlineUsers s)) |}.

(** The sockets an emit reaches. *)
Definition audience (s : Server) (t : Target) : gset string :=
  match t with
  | ToAll => dom (sockets s)
  | ToRoom room => dom (filter (fun kv => room ∈ kv.2) (rooms s))
  | ToSocket sid => if bool_decide (is_Some (sockets s !! sid)) then {[sid]} else ∅
  end.

(** The [connection] handler, up to the registration of the listeners. The
    socket arrives in the room Socket.IO names after its id, and
    [socket.join(socket.userId)] adds the room of its identity. *)
Definition onConnection (socket : Socket) (s : Server) : Server * list Emit :=
  let s' := {| sockets := <[socket_id socket := socket_userId socket]> (sockets s);
               rooms := <[socket_id socket :=
                            {[Some (socket_id socket); socket_userId socket]}]> (rooms s);
               onlineUsers := <[socket_userId socket := socket_id socket]> (onlineUsers s);
               activeConversations := activeConversations s |} in
  (s', [broadcastOnlineUsers s']).

Definition onJoinConversation (socket : Socket) (conversationId : string)
    (s : Server) : Server * list Emit :=
  ({| sockets := sockets s;
      rooms := alter (fun joined => {[Some conversationId]} ∪ joined)
                 (socket_id socket) (rooms s);
      onlineUsers := onlineUsers s;
      activeConversations :=
        <[socket_userId socket := conversationId]> (activeConversations s) |}, []).

Definition onLeaveConversation (socket : Socket) (conversationId : string)
    (s : Server) : Server * list Emit :=
  ({| sockets := sockets s;
      rooms := alter (fun joined => joined ∖ {[Some conversationId]})
                 (socket_id socket) (rooms s);
      onlineUsers := onlineUsers s;
      activeConversations := delete (socket_userId socket) (activeConversations s) |}, []).

Definition onTyping (socket : Socket) (conversationId : string) (recipientId : JsStr)
    (isTyping : bool) (s : Server) : Server * list Emit :=
  (s, [{| target := ToRoom recipientId;
          event := userTyping conversationId (socket_userId socket) isTyping |}]).

Definition onMarkAsRead (socket : Socket) (conversationId : string)
    (s : Server) : Server * list Emit :=
  let other := otherUserId conversationId (socket_userId socket) in
  (s, [{| target := ToRoom other;
          event := messagesRead conversationId (socket_userId socket) None |}]).

Definition onSendMessage (socket : Socket) (message : RelayedMessage)
    (s : Server) : Server * list Emit :=
  (s, [{| target := ToRoom (relayed_recipient message); event := newMessageRelayed message |};
       {| target := ToSocket (socket_id socket); event := messageSent message |}]).

Definition onDeleteMessage (socket : Socket) (messageId : nat) (recipientId : JsStr)
    (s : Server) : Server * list Emit :=
  (s, [{| target := ToRoom recipientId; event := messageDeleted messageId |}]).

(** The [disconnect] handler; by then Socket.IO has taken the socket out of
    its rooms and of its table. *)
Definition onDisconnect (socket : Socket) (s : Server) : Server * list Emit :=
  let s' := {| sockets := delete (socket_id socket) (sockets s);
               rooms := delete (socket_id socket) (rooms s);
               onlineUsers := delete (socket_userId socket) (onlineUsers s);
               activeConversations := delete (socket_userId socket) (activeConversations s) |} in
  (s', [broadcastOnlineUsers s']).

(** What a client can make happen on the live transport. Socket.IO gives
    every connection an id of its own. *)
Inductive SocketEvent :=
| Handshake (socketId : string) (token : JsStr)
| JoinConversation (socketId : string) (conversationId : string)
| LeaveConversation (socketId : string) (conversationId : string)
| Typing (socketId : string) (conversationId : string) (recipientId : JsStr) (isTyping : bool)
| MarkAsRead (socketId : string) (conversationId : string)
| SendMessage (socketId : string) (message : RelayedMessage)
| DeleteMessage (socketId : string) (messageId : nat) (recipientId : JsStr)
| Disconnect (socketId : string).

(** The outcome of the handshake, as the client sees it. *)
Inductive HandshakeResult :=
| Connected (socket : Socket)
| Refused (message : string).

Section Live.

(** The signature and expiry check of [jwt.verify] against the configured
    access secret: the claims of the token, or nothing when it throws. *)
Variable verifySigned : string -> option JwtPayload.

(** [jwt.verify(token, secret)]: a missing token throws as well. *)
Definition jwt_verify (token : JsStr) : option JwtPayload :=
  match token with
  | Some t => if truthy token then verifySigned t else None
  | None => None
  end.

(** The [io.use] middleware: [inr userId] stands for [next()] with
    [socket.userId] set, [inl e] for [next(new Error(e))]. *)
Definition authMiddleware (token : JsStr) : string + JsStr :=
  match jwt_verify token with
  | Some decoded =>
      inr (js_or (js_or (claim_userId decoded) (claim_id decoded)) (claim__id decoded))
  | None => inl "Authentication error"
  end.

(** A connection attempt: the middleware, then the [connection] handler
    only if the middleware called [next()] without an error. *)
Definition connect (socketId : string) (token : JsStr) (s : Server)
    : HandshakeResult * Server * list Emit :=
  match authMiddleware token with
  | inl e => (Refused e, s, [])
  | inr userId =>
      let socket := {| socket_id := socketId; socket_userId := userId |} in
      let '(s', out) := onConnection socket s in
      (Connected socket, s', out)
  end.

(** Dispatch of an event on a live socket; an event naming a socket that is
    not live has no listener to run. *)
Definition onLive (socketId : string) (h : Socket -> Server -> Server * list Emit)
    (s : Server) : Server * list Emit :=
  match sockets s !! socketId with
  | Some userId => h {| socket_id := socketId; socket_userId := userId |} s
  | None => (s, [])
  end.

Definition step (s : Server) (e : SocketEvent) : Server * list Emit :=
  match e with
  | Handshake sid token => let '(_, s', out) := connect sid token s in (s', out)
  | JoinConversation sid c => onLive sid (fun k => onJoinConversation k c) s
  | LeaveConversation sid c => onLive sid (fun k => onLeaveConversation k c) s
  | Typing sid c r t => onLive sid (fun k => onTyping k c r t) s
  | MarkAsRead sid c => onLive sid (fun k => onMarkAsRead k c) s
  | SendMessage sid m => onLive sid (fun k => onSendMessage k m) s
  | DeleteMessage sid m r => onLive sid (fun k => onDeleteMessage k m r) s
  | Disconnect sid => onLive sid onDisconnect s
  end.

(** The server after a sequence of events, and everything emitted. *)
Fixpoint run (s : Server) (trace : list SocketEvent) : Server * list Emit :=
  match trace with
  | [] => (s, [])
  | e :: trace' =>
      let '(s1, out1) := step s e in
      let '(s2, out2) := run s1 trace' in
      (s2, out1 ++ out2)
  end.

End Live.

(** [isOnline]: the identity has an entry in the presence registry. *)
Definition isOnline (s : Server) (userId : JsStr) : bool :=
  bool_decide (is_Some (onlineUsers s !! userId)).

(** [focusOf]. *)
Definition focusOf (s : Server) (userId : JsStr) : option string :=
  activeConversations s !! userId.

(** ** The message controller (REST paths) *)

(** A message document. *)
Record Message := {
  _id : nat;
  sender : string;
  recipient : string;
  messageText : JsStr;
  product : JsStr;
  image : JsStr;
  images : option (list string);
  isRead : bool;
  readAt : option nat;
  createdAt : nat;
}.

(** The durable message collection, by document id. *)
Abbreviation Store := (gmap nat Message).

(** The calls the controller makes on the message collection. *)
Inductive StoreOp :=
| opCreate | opPopulate | opSave | opFindById | opDeleteOne | opMarkConversationAsRead.

(** What a handler can throw. *)
Inductive Thrown :=
| AppError (message : string) (statusCode : nat)
| ReferenceError (identifier : string)
| StoreError (op : StoreOp)
| LookupError
| MailError.

Record User := { email : JsStr; name : string }.

(** The result of [User.findById]: a rejected query, or the document or [null]. *)
Inductive Lookup :=
| lookupFailed
| lookedUp (user : option User).

(** The text shown in the notification email. *)
Inductive Preview :=
| previewText (text : string)
| previewImages (imageCount : nat)
| previewImage.

Record Mail := { mail_to : string; mail_senderName : string; mail_preview : Preview }.

(** What a request sees of the rest of the system: whether the Socket.IO
    server is attached to the app, the maps of [socket.js] as they are when
    the handler reads them, the clock, and the behaviour of the external
    collaborators (message collection, account collection, mail transport). *)
Record Ctx := {
  io : bool;
  live : Server;
  now : nat;
  storeClock : nat;
  storeFails : StoreOp -> bool;
  findUser : string -> Lookup;
  mailFails : Mail -> bool;
}.

Inductive Outcome (A : Type) :=
| Returned (a : A)
| Threw (e : Thrown).
Arguments Returned {A} a.
Arguments Threw {A} e.

(** The run of a handler from a store: how it ended, the store it left and
    the events it emitted, in order. *)
Record Run (A : Type) := {
  outcome : Outcome A;
  store : Store;
  emitted : list Emit;
}.
Arguments outcome {A} r.
Arguments store {A} r.
Arguments emitted {A} r.

Definition M (A : Type) : Type := Store -> Run A.

#[global] Instance M_ret : MRet M := fun A a st =>
  {| outcome := Returned a; store := st; emitted := [] |}.

#[global] Instance M_bind : MBind M := fun A B k c st =>
  let r := c st in
  match outcome r with
  | Returned a =>
      let r' := k a (store r) in
      {| outcome := outcome r'; store := store r'; emitted := emitted r ++ emitted r' |}
  | Threw e => {| outcome := Threw e; store := store r; emitted := emitted r |}
  end.

Definition throw {A} (e : Thrown) : M A := fun st =>
  {| outcome := Threw e; store := st; emitted := [] |}.

(** [try { body } catch (e) { handler(e) }]. *)
Definition tryCatch {A} (body : M A) (handler : Thrown -> M A) : M A := fun st =>
  let r := body st in
  match outcome r with
  | Returned a => r
  | Threw e =>
      let r' := handler e (store r) in
      {| outcome := outcome r'; store := store r'; emitted := emitted r ++ emitted r' |}
  end.

(** [io.to(room).emit(event)]. *)
Definition emitTo (room : string) (ev : Event) : M unit := fun st =>
  {| outcome := Returned tt; store := st;
     emitted := [{| target := ToRoom (Some room); event := ev |}] |}.

(** A call on the message collection that may be rejected. *)
Definition storeCall {A} (ctx : Ctx) (op : StoreOp) (f : Store -> A * Store) : M A :=
  fun st =>
    if storeFails ctx op then {| outcome := Threw (StoreError op); store := st; emitted := [] |}
    else let '(a, st') := f st in {| outcome := Returned a; store := st'; emitted := [] |}.

(** The fields the controller passes to [Message.create]. *)
Record MessageData := {
  md_sender : string;
  md_recipient : string;
  md_messageText : JsStr;
  md_product : JsStr;
  md_images : option (list string);
  md_image : JsStr;
}.

(** Modelled from the spec: the message schema ([models/Message.model.js]) is
    missing; a created message has [isRead = false], no [readAt], and its
    creation time. *)
Definition newDocument (ctx : Ctx) (data : MessageData) (id : nat) : Message :=
  {| _id := id;
     sender := md_sender data;
     recipient := md_recipient data;
     messageText := md_messageText data;
     product := md_product data;
     image := md_image data;
     images := md_images data;
     isRead := false;
     readAt := None;
     createdAt := storeClock ctx |}.

(** [Message.create(messageData)]: the document is stored under a fresh id. *)
Definition Message_create (ctx : Ctx) (data : MessageData) : M Message :=
  storeCall ctx opCreate (fun st =>
    let m := newDocument ctx data (fresh (dom st)) in
    (m, <[_id m := m]> st)).

(** [message.populate([...])]: the references are kept as identities. *)
Definition Message_populate (ctx : Ctx) (m : Message) : M unit :=
  storeCall ctx opPopulate (fun st => (tt, st)).

(** [message.save()]. *)
Definition Message_save (ctx : Ctx) (m : Message) : M unit :=
  storeCall ctx opSave (fun st => (tt, <[_id m := m]> st)).

(** [Message.findById(messageId)]. *)
Definition Message_findById (ctx : Ctx) (messageId : nat) : M (option Message) :=
  storeCall ctx opFindById (fun st => (st !! messageId, st)).

(** [message.deleteOne()]. *)
Definition Message_deleteOne (ctx : Ctx) (m : Message) : M unit :=
  storeCall ctx opDeleteOne (fun st => (tt, delete (_id m) st)).

(** An unread message of conversation [cid] addressed to [reader]. *)
Definition unreadFor (cid reader : string) (m : Message) : bool :=
  bool_decide (conversationId (sender m) (recipient m) = cid)
  && bool_decide (recipient m = reader)
  && negb (isRead m).

Definition markRead (time : nat) (m : Message) : Message :=
  {| _id := _id m; sender := sender m; recipient := recipient m;
     messageText := messageText m; product := product m; image := image m;
     images := images m; isRead := true; readAt := Some time;
     createdAt := createdAt m |}.

(** Modelled from the spec: the static [Message.markConversationAsRead] is in
    the missing [models/Message.model.js]; it durably flips [isRead] on every
    unread message of the conversation addressed to the reader and returns
    the ids of the messages it flipped. *)
Definition Message_markConversationAsRead (ctx : Ctx) (cid reader : string)
    : M (list nat) :=
  storeCall ctx opMarkConversationAsRead (fun st =>
    let affected := filter (fun kv => unreadFor cid reader kv.2 = true) st in
    ((map_to_list affected).*1,
     (fun m => if unreadFor cid reader m then markRead (storeClock ctx) m else m) <$> st)).

(** [User.findById(id)]. *)
Definition User_findById (ctx : Ctx) (id : string) : M (option User) :=
  match findUser ctx id with
  | lookupFailed => throw LookupError
  | lookedUp u => mret u
  end.

(** [sendNewMessageEmail(recipientEmail, senderName, messagePreview)], which
    rethrows what the transport throws. *)
Definition sendNewMessageEmail (ctx : Ctx) (recipientEmail senderName : string)
    (messagePreview : Preview) : M unit :=
  let mail := {| mail_to := recipientEmail; mail_senderName := senderName;
                 mail_preview := messagePreview |} in
  if mailFails ctx mail then throw MailError else mret tt.

(** The handle the presence registry holds for an identity, when it passes
    the [if (socketId)] test. *)
Definition socketOf (s : Server) (userId : JsStr) : option string :=
  match onlineUsers s !! userId with
  | Some sid => if truthy (Some sid) then Some sid else None
  | None => None
  end.

(** The successful responses ([successResponse(res, data, message, status)]). *)
Inductive ResponseData :=
| dataMessage (m : Message)
| dataNull.

Record Response := {
  statusCode : nat;
  responseMessage : string;
  responseData : ResponseData;
}.

(** *** [sendMessage] *)

Record SendRequest := {
  send_userId : string;               (* req.user.id *)
  send_recipient : string;
  send_messageText : JsStr;
  send_product : JsStr;
  send_image : JsStr;
  send_images : option (list string); (* present and an array *)
}.

Definition messageDataOf (req : SendRequest) : MessageData :=
  match send_images req with
  | Some imgs =>
      {| md_sender := send_userId req; md_recipient := send_recipient req;
         md_messageText := send_messageText req; md_product := send_product req;
         md_images := Some imgs; md_image := None |}
  | None =>
      match send_image req with
      | Some img =>
          if truthy (Some img) then
            {| md_sender := send_userId req; md_recipient := send_recipient req;
               md_messageText := send_messageText req; md_product := send_product req;
               md_images := Some [img]; md_image := Some img |}
          else
            {| md_sender := send_userId req; md_recipient := send_recipient req;
               md_messageText := send_messageText req; md_product := send_product req;
               md_images := None; md_image := None |}
      | None =>
          {| md_sender := send_userId req; md_recipient := send_recipient req;
             md_messageText := send_messageText req; md_product := send_product req;
             md_images := None; md_image := None |}
      end
  end.

Definition newMessagePayloadOf (m : Message) (cid : string) : NewMessagePayload :=
  {| nm__id := _id m; nm_sender := sender m; nm_recipient := recipient m;
     nm_messageText := messageText m; nm_product := product m; nm_image := image m;
     nm_images := images m; nm_isRead := isRead m; nm_readAt := readAt m;
     nm_createdAt := createdAt m; nm_conversationId := cid |}.

(** The auto-read update of the freshly created message. *)
Definition readNow (ctx : Ctx) (m : Message) : Message := markRead (now ctx) m.

(** The socket block of [sendMessage]. *)
Definition sendMessage_push (ctx : Ctx) (senderId recip cid : string)
    (viewing : bool) (message : Message) : M unit :=
  if io ctx then
    match socketOf (live ctx) (Some recip) with
    | Some recipientSocketId =>
        emitTo recipientSocketId (newMessage (newMessagePayloadOf message cid)) ;;
        if viewing then
          match socketOf (live ctx) (Some senderId) with
          | Some senderSocketId =>
              emitTo senderSocketId (messagesRead cid (Some recip) (Some [_id message]))
          | None => mret tt
          end
        else mret tt
    | None => mret tt
    end
  else mret tt.

Definition emailContentOf (text : JsStr) (message : Message) : Preview :=
  match text with
  | Some t =>
      if truthy text then previewText t
      else
        let imageCount := match images message with Some l => length l | None => 0 end in
        if Nat.ltb 1 imageCount then previewImages imageCount else previewImage
  | None =>
      let imageCount := match images message with Some l => length l | None => 0 end in
      if Nat.ltb 1 imageCount then previewImages imageCount else previewImage
  end.

(** The body of the [try] block around the email notification. *)
Definition sendMessage_notify (ctx : Ctx) (senderId recip : string) (text : JsStr)
    (message : Message) : M unit :=
  recipientUser ← User_findById ctx recip ;
  senderUser ← User_findById ctx senderId ;
  match recipientUser, senderUser with
  | Some r, Some s =>
      match email r with
      | Some addr =>
          if truthy (email r) then
            sendNewMessageEmail ctx addr (name s) (emailContentOf text message)
          else mret tt
      | None => mret tt
      end
  | _, _ => mret tt
  end.

Definition sendMessage (ctx : Ctx) (req : SendRequest) : M Response :=
  let senderId := send_userId req in
  let recip := send_recipient req in
  created ← Message_create ctx (messageDataOf req) ;
  Message_populate ctx created ;;
  let cid := conversationId senderId recip in
  let recipientActiveConversation := activeConversations (live ctx) !! Some recip in
  let isRecipientViewingConversation :=
    bool_decide (recipientActiveConversation = Some cid) in
  message ← (if isRecipientViewingConversation
             then Message_save ctx (readNow ctx created) ;; mret (readNow ctx created)
             else mret created) ;
  sendMessage_push ctx senderId recip cid isRecipientViewingConversation message ;;
  tryCatch (sendMessage_notify ctx senderId recip (send_messageText req) message)
           (fun emailError => mret tt) ;;
  mret {| statusCode := 201; responseMessage := "Message sent successfully";
          responseData := dataMessage message |}.

(** *** [deleteMessage] *)

(** The identifiers the message controller binds at module level: its
    import declarations. *)
Definition message_controller_imports : list string :=
  ["asyncHandler"; "Message"; "User"; "successResponse"; "sendNewMessageEmail";
   "onlineUsers"; "activeConversations"].

(** Evaluation of [new AppError(message, statusCode)] in a module with the
    given bindings: an identifier the module does not bind is unresolvable,
    and reading it raises a [ReferenceError] instead. *)
Definition new_AppError (scope : list string) (message : string) (status : nat) : Thrown :=
  if bool_decide ("AppError" ∈ scope) then AppError message status
  else ReferenceError "AppError".

Record DeleteRequest := {
  delete_userId : string;     (* req.user.id *)
  delete_messageId : nat;     (* req.params.messageId *)
}.

Definition deleteMessage (ctx : Ctx) (req : DeleteRequest) : M Response :=
  let userId := delete_userId req in
  let messageId := delete_messageId req in
  found ← Message_findById ctx messageId ;
  match found with
  | None => throw (new_AppError message_controller_imports "Message not found" 404)
  | Some message =>
      if negb (String.eqb (sender message) userId) then
        throw (new_AppError message_controller_imports
                 "You can only delete your own messages" 403)
      else
        let recipientId := recipient message in
        Message_deleteOne ctx message ;;
        (if io ctx then
           match socketOf (live ctx) (Some recipientId) with
           | Some recipientSocketId => emitTo recipientSocketId (messageDeleted messageId)
           | None => mret tt
           end
         else mret tt) ;;
        mret {| statusCode := 200; responseMessage := "Message deleted successfully";
                responseData := dataNull |}
  end.

(** *** [markAsRead] *)

Record MarkAsReadRequest := {
  mark_userId : string;          (* req.user.id *)
  mark_conversationId : string;  (* req.body.conversationId *)
}.

Definition markAsRead (ctx : Ctx) (req : MarkAsReadRequest) : M Response :=
  let userId := mark_userId req in
  let cid := mark_conversationId req in
  messageIds ← Message_markConversationAsRead ctx cid userId ;
  (if io ctx then
     let other := otherUserId cid (Some userId) in
     match socketOf (live ctx) other with
     | Some senderSocketId =>
         emitTo senderSocketId (messagesRead cid (Some userId) (Some messageIds))
     | None => mret tt
     end
   else mret tt) ;;
  mret {| statusCode := 200; responseMessage := "Messages marked as read successfully";
          responseData := dataNull |}.

(** ** Vocabulary of the statements *)

(** The event is a [messagesRead]. *)
Definition is_messagesRead (e : Emit) : bool :=
  match event e with messagesRead _ _ _ => true | _ => false end.

(** No call on the message collection is rejected. *)
Definition storeUp (ctx : Ctx) : Prop := forall op, storeFails ctx op = false.

(** The identity has no separator in it (as a database id has none). *)
Definition separatorFree (s : string) : Prop := js_split SEP s = [s].

(** A handshake of the trace that authenticates identity [u]. *)
Definition authenticatesAs (verifySigned : string -> option JwtPayload)
    (u : JsStr) (e : SocketEvent) : Prop :=
  match e with
  | Handshake _ token => authMiddleware verifySigned token = inr u
  | _ => False
  end.

(** The server after one event. *)
Definition after (verifySigned : string -> option JwtPayload) (s : Server)
    (e : SocketEvent) : Server :=
  (step verifySigned s e).1.

(** A handshake or a disconnection. *)
Definition isConnectionEvent (e : SocketEvent) : Prop :=
  match e with
  | Handshake _ _ | Disconnect _ => True
  | _ => False
  end.

(** The identity is not the id of a socket of the trace. *)
Definition notASocketIdOf (trace : list SocketEvent) (u : JsStr) : Prop :=
  forall sid token, In (Handshake sid token) trace -> u <> Some sid.

(** No identity authenticated along the trace is the id of one of its
    sockets (account ids and socket ids do not have the same format). *)
Definition identitiesAreNotSocketIds (verifySigned : string -> option JwtPayload)
    (trace : list SocketEvent) : Prop :=
  Forall (fun e => forall u, authenticatesAs verifySigned u e -> notASocketIdOf trace u)
         trace.

(** Each socket is only in the room of its id and in the room of its identity. *)
Definition roomsOwn (s : Server) : Prop :=
  forall sid joined room,
    rooms s !! sid = Some joined -> room ∈ joined ->
    room = Some sid \/ sockets s !! sid = Some room.

(** The identity attached to each live socket satisfies [Q]. *)
Definition socketsSatisfy (Q : JsStr -> Prop) (s : Server) : Prop :=
  forall sid u, sockets s !! sid = Some u -> Q u.

(** Every event a computation emits satisfies [P], from any store. *)
Definition emitsOnly {A} (P : Emit -> Prop) (c : M A) : Prop :=
  forall st, Forall P (emitted (c st)).

(** The event is addressed to the one handle the presence registry holds for
    the identity [u]. *)
Definition toRegisteredHandle (s : Server) (u : JsStr) (e : Emit) : Prop :=
  exists h, target e = ToRoom (Some h) /\ onlineUsers s !! u = Some h.

(** The event reaches no socket but the one whose id the presence registry
    holds for the identity [u]. *)
Definition reachesOnlyRegistered (s : Server) (u : JsStr) (e : Emit) : Prop :=
  exists h, onlineUsers s !! u = Some h /\ audience s (target e) ⊆ {[h]}.

(** The identity a delivery of [sendMessage] is meant for: the recipient of
    the request for the [newMessage], the sender of the request for the
    [messagesRead] of the automatic read. No other event is a delivery of
    this path. *)
Definition sendMessage_addressee (req : SendRequest) (e : Emit) : option JsStr :=
  match event e with
  | newMessage _ => Some (Some (send_recipient req))
  | messagesRead _ _ _ => Some (Some (send_userId req))
  | _ => None
  end.

(** The identity a delivery of [deleteMessage] is meant for: the recipient of
    the message the store holds under the id of the request. *)
Definition deleteMessage_addressee (st : Store) (req : DeleteRequest) (e : Emit)
    : option JsStr :=
  match event e with
  | messageDeleted _ => (fun m => Some (recipient m)) <$> st !! delete_messageId req
  | _ => None
  end.

(** The identity a delivery of [markAsRead] is meant for: the participant of
    the conversation of the request other than the reader. *)
Definition markAsRead_addressee (req : MarkAsReadRequest) (e : Emit) : option JsStr :=
  match event e with
  | messagesRead _ _ _ =>
      Some (otherUserId (mark_conversationId req) (Some (mark_userId req)))
  | _ => None
  end.

(** Every event the computation emits from the store [st] is a delivery
    meant for an identity, and satisfies [P] at that identity. *)
Definition delivers {A} (P : JsStr -> Emit -> Prop) (addressee : Emit -> option JsStr)
    (c : M A) (st : Store) : Prop :=
  Forall (fun e => exists u, addressee e = Some u /\ P u e) (emitted (c st)).

(** The recipient of the request is viewing the conversation with the sender. *)
Definition recipientViewing (ctx : Ctx) (req : SendRequest) : bool :=
  bool_decide (focusOf (live ctx) (Some (send_recipient req))
               = Some (conversationId (send_userId req) (send_recipient req))).

(** The message a send leaves in the store when no store call is rejected. *)
Definition sentMessage (ctx : Ctx) (req : SendRequest) (st : Store) : Message :=
  let created := newDocument ctx (messageDataOf req) (fresh (dom st)) in
  if recipientViewing ctx req then readNow ctx created else created.

(** The response of a successful send. *)
Definition sentResponse (m : Message) : Response :=
  {| statusCode := 201; responseMessage := "Message sent successfully";
     responseData := dataMessage m |}.

(** The [messagesRead] event the send path addresses to the sender. *)
Definition autoReadReceipt (req : SendRequest) (senderSocketId : string) (m : Message)
    : Emit :=
  {| target := ToRoom (Some senderSocketId);
     event := messagesRead (conversationId (send_userId req) (send_recipient req))
                (Some (send_recipient req)) (Some [_id m]) |}.

(** The same context with other account lookups and another mail transport. *)
Definition withNotifier (ctx : Ctx) (lookup : string -> Lookup) (fails : Mail -> bool)
    : Ctx :=
  {| io := io ctx; live := live ctx; now := now ctx; storeClock := storeClock ctx;
     storeFails := storeFails ctx; findUser := lookup; mailFails := fails |}.

(** The store holds no unread message of the conversation addressed to the
    reader. *)
Definition nothingUnread (cid reader : string) (st : Store) : Prop :=
  forall id m, st !! id = Some m -> unreadFor cid reader m = false.

(** The response of a successful mark-as-read. *)
Definition markedResponse : Response :=
  {| statusCode := 200; responseMessage := "Messages marked as read successfully";
     responseData := dataNull |}.

(** The response of a successful deletion. *)
Definition deletedResponse : Response :=
  {| statusCode := 200; responseMessage := "Message deleted successfully";
     responseData := dataNull |}.

(** ** Inputs of the examples *)

(** A token verifier for the examples: the token ["forged"] fails the check,
    any other token verifies and carries itself as its [userId] claim. *)
Definition exampleVerifier (t : string) : option JwtPayload :=
  if String.eqb t "forged" then None
  else Some {| claim_userId := Some t; claim_id := None; claim__id := None |}.

(** The state reached when identity [u1] opens two connections and joins a
    conversation on the second. *)
Definition twoTabs : Server :=
  (run exampleVerifier initial_server
     [Handshake "s1" (Some "u1"); Handshake "s2" (Some "u1");
      JoinConversation "s2" "u1_u2"]).1.

(** The state reached when identity [u1] joins one conversation and then
    another. *)
Definition switchedThread : Server :=
  (run exampleVerifier initial_server
     [Handshake "s1" (Some "u1");
      JoinConversation "s1" "u1_u2"; JoinConversation "s1" "u1_u3"]).1.

(** The state reached when [u2] opens two connections, [u1] one, the first
    connection of [u2] is closed and the second then joins the conversation
    with [u1]. *)
Definition focusedButUnregistered : Server :=
  (run exampleVerifier initial_server
     [Handshake "s1" (Some "u2"); Handshake "s2" (Some "u2");
      Handshake "s3" (Some "u1"); Disconnect "s1";
      JoinConversation "s2" "u1_u2"]).1.

(** The state reached when [u1] and [u2] connect and [u2] joins the
    conversation with [u1]. *)
Definition viewingThread : Server :=
  (run exampleVerifier initial_server
     [Handshake "s1" (Some "u1"); Handshake "s2" (Some "u2");
      JoinConversation "s2" "u1_u2"]).1.

(** The state reached when [u1] and [u2] connect and nobody joins. *)
Definition bothOnline : Server :=
  (run exampleVerifier initial_server
     [Handshake "s1" (Some "u1"); Handshake "s2" (Some "u2")]).1.

(** A context for the examples over a given live state: Socket.IO attached,
    no store call rejected, no account found. *)
Definition exampleCtx (s : Server) : Ctx :=
  {| io := true; live := s; now := 7; storeClock := 5;
     storeFails := fun _ => false;
     findUser := fun _ => lookedUp None;
     mailFails := fun _ => false |}.

(** [u1] sends the text ["hi"] to [u2]. *)
Definition hiRequest : SendRequest :=
  {| send_userId := "u1"; send_recipient := "u2"; send_messageText := Some "hi";
     send_product := None; send_image := None; send_images := None |}.

(** An account collection in which everybody has an address, and a mail
    transport that rejects every mail. *)
Definition everyoneHasMail (id : string) : Lookup :=
  lookedUp (Some {| email := Some (id +:+ "@example.org"); name := id |}).

Definition transportDown (m : Mail) : bool := true.

(** [u2] marks the conversation with [u1] as read. *)
Definition readRequest : MarkAsReadRequest :=
  {| mark_userId := "u2"; mark_conversationId := "u1_u2" |}.

(** A store with one message, from [u1] to [u2], under id 0. *)
Definition oneMessage : Store :=
  {[ 0 := {| _id := 0; sender := "u1"; recipient := "u2"; messageText := Some "hi";
             product := None; image := None; images := None; isRead := false;
             readAt := None; createdAt := 5 |} ]}.

(** [u2] asks for the deletion of message 0; [u1] for that of message 1. *)
Definition deleteByRecipient : DeleteRequest :=
  {| delete_userId := "u2"; delete_messageId := 0 |}.

Definition deleteMissing : DeleteRequest :=
  {| delete_userId := "u1"; delete_messageId := 1 |}.

Definition deleteBySender : DeleteRequest :=
  {| delete_userId := "u1"; delete_messageId := 0 |}.

(** ** Statements of the specification that the handlers do not meet *)

(** An identity with two live connections keeps its presence and its focus
    when one of the two disconnects. *)
Definition partialDisconnectKeeps (verifySigned : string -> option JwtPayload)
    (s : Server) (sid1 sid2 : string) (u : JsStr) : Prop :=
  sockets s !! sid1 = Some u -> sockets s !! sid2 = Some u -> sid1 <> sid2 ->
  isOnline s u = true ->
  isOnline (after verifySigned s (Disconnect sid1)) u = true
  /\ focusOf (after verifySigned s (Disconnect sid1)) u = focusOf s u.

(** A leave event clears the focus of the identity only if the focus is the
    conversation the event names. *)
Definition leaveIsGuarded (verifySigned : string -> option JwtPayload)
    (s : Server) (sid : string) (u : JsStr) (c : string) : Prop :=
  sockets s !! sid = Some u ->
  focusOf s u <> Some c ->
  focusOf (after verifySigned s (LeaveConversation sid c)) u = focusOf s u.

(** A send to a recipient who is viewing the conversation stores the message
    as read and delivers a [messagesRead] event to the sender whenever the
    sender is online. *)
Definition autoReadReachesSender (ctx : Ctx) (req : SendRequest) (st : Store) : Prop :=
  storeUp ctx -> io ctx = true -> recipientViewing ctx req = true ->
  forall senderSocketId,
    socketOf (live ctx) (Some (send_userId req)) = Some senderSocketId ->
    exists m,
      outcome (sendMessage ctx req st) = Returned (sentResponse m)
      /\ store (sendMessage ctx req st) !! _id m = Some m
      /\ isRead m = true
      /\ is_Some (readAt m)
      /\ In (autoReadReceipt req senderSocketId m) (emitted (sendMessage ctx req st)).

(** Marking as read a conversation with nothing unread writes nothing and
    delivers no event. *)
Definition rereadIsSilent (ctx : Ctx) (req : MarkAsReadRequest) (st : Store) : Prop :=
  storeUp ctx ->
  nothingUnread (mark_conversationId req) (mark_userId req) st ->
  store (markAsRead ctx req st) = st
  /\ emitted (markAsRead ctx req st) = [].

(** ** More of the live layer and of the message controller *)

(** The socket ids of the handshakes of a trace. *)
Fixpoint handshakeIds (trace : list SocketEvent) : list string :=
  match trace with
  | [] => []
  | Handshake sid _ :: trace' => sid :: handshakeIds trace'
  | _ :: trace' => handshakeIds trace'
  end.

(** The handle the registry holds for an identity is a live socket of that
    identity. *)
Definition registryLive (s : Server) : Prop :=
  forall u h, onlineUsers s !! u = Some h -> sockets s !! h = Some u.

(** An identity with a focus has a live socket. *)
Definition focusLive (s : Server) : Prop :=
  forall u c, focusOf s u = Some c -> exists sid, sockets s !! sid = Some u.

(** The payload of the last [onlineUsers] broadcast of a list of emits. *)
Fixpoint lastBroadcast (out : list Emit) : option (gset JsStr) :=
  match out with
  | [] => None
  | e :: out' =>
      match lastBroadcast out' with
      | Some ids => Some ids
      | None => match event e with
                | onlineUsersEv ids => Some ids
                | _ => None
                end
      end
  end.

(** The events whose handlers only relay: [typing], [markAsRead],
    [sendMessage] and [deleteMessage]. *)
Definition isRelay (e : SocketEvent) : bool :=
  match e with
  | Typing _ _ _ _ | MarkAsRead _ _ | SendMessage _ _ | DeleteMessage _ _ _ => true
  | _ => false
  end.

(** The event is not a [leaveConversation]. *)
Definition notLeave (e : SocketEvent) : Prop :=
  match e with
  | LeaveConversation _ _ => False
  | _ => True
  end.

(** Each live socket is in the room of its id and in the room of its
    identity. *)
Definition roomsKept (s : Server) : Prop :=
  forall sid u, sockets s !! sid = Some u ->
    exists joined, rooms s !! sid = Some joined /\ Some sid ∈ joined /\ u ∈ joined.

(** [getOnlineUsers] of the message controller. *)
Record OnlineUsersResponse := {
  online_statusCode : nat;
  online_message : string;
  online_onlineUsers : gset JsStr;
}.

Definition getOnlineUsers (ctx : Ctx) : M OnlineUsersResponse :=
  let onlineUserIds := dom (onlineUsers (live ctx)) in
  mret {| online_statusCode := 200;
          online_message := "Online users retrieved successfully";
          online_onlineUsers := onlineUserIds |}.

(** A computation that emits nothing. *)
Definition silent {A} (c : M A) : Prop := forall st, emitted (c st) = [].

(** A computation that does not throw. *)
Definition unfailing {A} (c : M A) : Prop := forall st, exists a, outcome (c st) = Returned a.

(** A computation that has emitted nothing whenever it throws. *)
Definition quietOnThrow {A} (c : M A) : Prop :=
  forall st e, outcome (c st) = Threw e -> emitted (c st) = [].

(** The quotation of the preview in the notification mail
    ([sendNewMessageEmail] of [utils/emailService.js]):
    [messagePreview.substring(0, 150)] followed by ['...'] when the preview is
    longer than 150. *)
Definition previewQuote (messagePreview : string) : string :=
  substring 0 150 messagePreview
  +:+ (if Nat.ltb 150 (String.length messagePreview) then "..." else "").

(** The context of the examples with a message collection that rejects
    [populate], or [save], or [deleteOne]. *)
Definition failingCtx (s : Server) (failing : StoreOp -> bool) : Ctx :=
  {| io := true; live := s; now := 7; storeClock := 5;
     storeFails := failing;
     findUser := fun _ => lookedUp None;
     mailFails := fun _ => false |}.

Definition populateFails (op : StoreOp) : bool :=
  match op with opPopulate => true | _ => false end.

Definition deleteOneFails (op : StoreOp) : bool :=
  match op with opDeleteOne => true | _ => false end.

(** ** Accounts: the route guard, and suspension by the administrator

    [authenticate] of [middleware/auth.js], [suspendUser] and [activateUser]
    of [services/user.service.js] with the methods [suspend] and [activate] of
    [models/User.model.js], and [makeAdmin] of the admin controller. *)

Module Accounts.

(** The fields of a user document these functions read or write. *)
Record Account := {
  role : string;
  isActive : bool;
  isSuspended : bool;
  suspensionReason : JsStr;
  suspendedAt : option nat;
}.

(** What these functions throw: an [AppError], what [verifyAccessToken]
    throws (with the [statusCode] it carries, if any), or a rejection by the
    database. *)
Inductive Failure :=
| appError (message : string) (statusCode : nat)
| tokenError (statusCode : option nat)
| databaseError.

(** [error.statusCode]. *)
Definition statusCodeOf (error : Failure) : option nat :=
  match error with
  | appError _ code => Some code
  | tokenError code => code
  | databaseError => None
  end.

(** The collaborators: [verifyAccessToken] of the token utilities (the
    claims of the token, or nothing when it throws, and then the
    [statusCode] of what it throws), whether the database rejects the query
    for an id, whether it rejects a save, and the clock. *)
Record Env := {
  verifyAccessToken : string -> option JwtPayload;
  thrownStatusCode : string -> option nat;
  findFails : JsStr -> bool;
  saveFails : bool;
  clock : nat;
}.

(** The user collection, by document id. *)
Abbreviation Db := (gmap string Account).

(** [User.findById(id)]; an [undefined] id finds nothing. *)
Definition findById (env : Env) (db : Db) (id : JsStr) : Failure + option Account :=
  if findFails env id then inl databaseError
  else inr (match id with Some i => db !! i | None => None end).

(** [user.save()] of the document found under [id]. *)
Definition save (env : Env) (db : Db) (id : string) (user : Account)
    : Failure + (Account * Db) :=
  if saveFails env then inl databaseError else inr (user, <[id := user]> db).

(** [userSchema.methods.suspend]. *)
Definition suspend (env : Env) (user : Account) (reason : JsStr) : Account :=
  {| role := role user;
     isActive := false;
     isSuspended := true;
     suspensionReason := js_or reason (Some "Suspended by admin");
     suspendedAt := Some (clock env) |}.

(** [userSchema.methods.activate]. *)
Definition activate (user : Account) : Account :=
  {| role := role user;
     isActive := true;
     isSuspended := false;
     suspensionReason := None;
     suspendedAt := None |}.

(** [suspendUser] of the user service. *)
Definition suspendUser (env : Env) (db : Db) (userId : string) (reason : JsStr)
    : Failure + (Account * Db) :=
  match findById env db (Some userId) with
  | inl e => inl e
  | inr None => inl (appError "User not found" 404)
  | inr (Some user) =>
      if String.eqb (role user) "admin" then inl (appError "Cannot suspend admin users" 403)
      else save env db userId (suspend env user reason)
  end.

(** [activateUser] of the user service. *)
Definition activateUser (env : Env) (db : Db) (userId : string)
    : Failure + (Account * Db) :=
  match findById env db (Some userId) with
  | inl e => inl e
  | inr None => inl (appError "User not found" 404)
  | inr (Some user) => save env db userId (activate user)
  end.

(** [makeAdmin] of the admin controller. *)
Definition makeAdmin (env : Env) (db : Db) (userId : string)
    : Failure + (Account * Db) :=
  match findById env db (Some userId) with
  | inl e => inl e
  | inr None => inl (appError "User not found" 404)
  | inr (Some user) =>
      save env db userId
        {| role := "admin"; isActive := isActive user; isSuspended := isSuspended user;
           suspensionReason := suspensionReason user; suspendedAt := suspendedAt user |}
  end.

(** The token of the [authorization] header: the second of its pieces
    between spaces, when the header starts with ['Bearer']. *)
Definition bearerToken (authorization : JsStr) : JsStr :=
  match authorization with
  | Some header =>
      if truthy authorization && String.prefix "Bearer" header
      then nth_error (js_split " " header) 1
      else None
  | None => None
  end.

Definition notAuthorized : Failure :=
  appError "Not authorized to access this route" 401.

Definition suspended : Failure :=
  appError "Your account has been suspended. Please contact support." 403.

(** The body of the [try] block of [authenticate]. *)
Definition authenticateTry (env : Env) (db : Db) (token : string)
    : Failure + (JsStr * Account) :=
  match verifyAccessToken env token with
  | None => inl (tokenError (thrownStatusCode env token))
  | Some decoded =>
      match findById env db (claim_userId decoded) with
      | inl e => inl e
      | inr None => inl (appError "User not found" 404)
      | inr (Some user) =>
          if isSuspended user then inl suspended
          else inr (claim_userId decoded, user)
      end
  end.

(** [authenticate]: [inr (id, user)] stands for [req.user = user; next()],
    the user being the document of that id. *)
Definition authenticate (env : Env) (db : Db) (authorization : JsStr)
    : Failure + (JsStr * Account) :=
  let token := bearerToken authorization in
  match token with
  | Some t =>
      if truthy token then
        match authenticateTry env db t with
        | inr user => inr user
        | inl error =>
            if decide (statusCodeOf error = Some 403) then inl error
            else inl notAuthorized
        end
      else inl notAuthorized
  | None => inl notAuthorized
  end.

(** A piece of a header: a string without space. *)
Definition spaceFree (s : string) : Prop := js_split " " s = [s].

(** An environment whose database answers and whose tokens are user ids. *)
Definition exampleEnv : Env :=
  {| verifyAccessToken := exampleVerifier; thrownStatusCode := fun _ => None;
     findFails := fun _ => false; saveFails := false; clock := 9 |}.

(** One ordinary account, ["u1"]. *)
Definition oneAccount : Db :=
  {[ "u1" := {| role := "user"; isActive := true; isSuspended := false;
                suspensionReason := None; suspendedAt := None |} ]}.

End Accounts.

(** ** Orders: status updates and cancellation

    [updateOrderStatus] and [cancelOrder] of [services/order.service.js],
    which the order controller calls, with the methods [updateStatus],
    [cancelOrder] and [canBeCancelled] of [models/Order.model.js],
    [incrementStock] of [models/Product.model.js] and [incrementSales] of
    [models/User.model.js]. *)

Module Orders.

(** JavaScript numbers, with the operations the code applies to them. The
    statements hold for every interpretation. *)
Class Numbers := {
  num : Type;
  zero : num;
  add : num -> num -> num;
  mul : num -> num -> num;
  ltb : num -> num -> bool;
  leb : num -> num -> bool;
}.

(** The values of the [status] enum of the order schema. *)
Inductive OrderStatus := pending | processing | ready | shipped | completed | cancelled.

Definition statusName (st : OrderStatus) : string :=
  match st with
  | pending => "pending"
  | processing => "processing"
  | ready => "ready"
  | shipped => "shipped"
  | completed => "completed"
  | cancelled => "cancelled"
  end.

(** The enum validator of [status]: the value of the schema with that name. *)
Definition parseStatus (name : string) : option OrderStatus :=
  if String.eqb name "pending" then Some pending
  else if String.eqb name "processing" then Some processing
  else if String.eqb name "ready" then Some ready
  else if String.eqb name "shipped" then Some shipped
  else if String.eqb name "completed" then Some completed
  else if String.eqb name "cancelled" then Some cancelled
  else None.

(** The values of the [status] enum of the product schema. *)
Inductive ProductStatus := active | paused | sold | deleted.

Section WithNumbers.

Context {N : Numbers}.

Record Item := {
  product : string;
  seller : string;
  quantity : num;
  price : num;
}.

Record HistoryEntry := {
  entryStatus : string;
  updatedBy : JsStr;
  timestamp : nat;
  note : JsStr;
}.

Record Order := {
  buyer : string;
  items : list Item;
  status : OrderStatus;
  statusHistory : list HistoryEntry;
  completedAt : option nat;
  cancelledBy : JsStr;
  cancelledAt : option nat;
  cancellationReason : JsStr;
}.

Record Product := {
  stock : num;
  productStatus : ProductStatus;
}.

Record Member := {
  email : JsStr;
  name : string;
  totalSales : num;
}.

(** A status mail that went out: the address and the status announced. *)
Record StatusMail := { mailTo : string; mailStatus : string }.

(** The collections, and the mails sent. *)
Record Db := {
  orders : gmap string Order;
  members : gmap string Member;
  products : gmap string Product;
  outbox : list StatusMail;
}.

(** What these functions throw. *)
Inductive Failure :=
| appError (message : string) (statusCode : nat)
| validationError (path : string)
| typeError
| databaseError.

Inductive DbOp := findOrder | saveOrder | findMember | saveMember | saveProduct.

(** The collaborators: which database calls are rejected, whether the mail
    transport throws, and the clock. *)
Record Env := {
  dbRejects : DbOp -> bool;
  mailFails : bool;
  clock : nat;
}.

(** How a call ends, with the database it leaves. *)
Record Result := {
  returned : Failure + Order;
  database : Db;
}.

Definition withOrders (db : Db) (o : gmap string Order) : Db :=
  {| orders := o; members := members db; products := products db; outbox := outbox db |}.

Definition withMembers (db : Db) (m : gmap string Member) : Db :=
  {| orders := orders db; members := m; products := products db; outbox := outbox db |}.

Definition withProducts (db : Db) (p : gmap string Product) : Db :=
  {| orders := orders db; members := members db; products := p; outbox := outbox db |}.

(** [order.save()] of the order found under [orderId]. *)
Definition saveOrderDoc (env : Env) (db : Db) (orderId : string) (order : Order)
    : Failure + Db :=
  if dbRejects env saveOrder then inl databaseError
  else inr (withOrders db (<[orderId := order]> (orders db))).

(** [orderSchema.methods.updateStatus]: the document is changed and saved;
    the save validates [status] against the enum of the schema. *)
Definition updateStatus (env : Env) (db : Db) (orderId : string) (order : Order)
    (newStatus : string) (by_ : string) (note_ : string) : Failure + (Order * Db) :=
  match parseStatus newStatus with
  | None => inl (validationError "status")
  | Some st =>
      let order' :=
        {| buyer := buyer order; items := items order; status := st;
           statusHistory :=
             statusHistory order
             ++ [{| entryStatus := newStatus; updatedBy := Some by_;
                    timestamp := clock env; note := Some note_ |}];
           completedAt := if String.eqb newStatus "completed" then Some (clock env)
                          else completedAt order;
           cancelledBy := cancelledBy order; cancelledAt := cancelledAt order;
           cancellationReason := cancellationReason order |} in
      match saveOrderDoc env db orderId order' with
      | inl e => inl e
      | inr db' => inr (order', db')
      end
  end.

(** [orderSchema.methods.cancelOrder]. *)
Definition cancelOrderDoc (env : Env) (db : Db) (orderId : string) (order : Order)
    (by_ : string) (reason : JsStr) : Failure + (Order * Db) :=
  let order' :=
    {| buyer := buyer order; items := items order; status := cancelled;
       statusHistory :=
         statusHistory order
         ++ [{| entryStatus := "cancelled"; updatedBy := Some by_;
                timestamp := clock env; note := reason |}];
       completedAt := completedAt order;
       cancelledBy := Some by_; cancelledAt := Some (clock env);
       cancellationReason := reason |} in
  match saveOrderDoc env db orderId order' with
  | inl e => inl e
  | inr db' => inr (order', db')
  end.

(** [orderSchema.methods.canBeCancelled]. *)
Definition canBeCancelled (order : Order) : bool :=
  negb (existsb (String.eqb (statusName (status order))) ["completed"; "cancelled"]).

(** [productSchema.methods.incrementStock], with the pre-save hook and the
    [min] validator of [stock]. *)
Definition incrementStock (env : Env) (db : Db) (productId : string) (p : Product)
    (qty : num) : Failure + Db :=
  let stock' := add (stock p) qty in
  let status' :=
    match productStatus p with
    | sold => if ltb zero stock' then active else sold
    | other => other
    end in
  let hooked :=
    match status' with
    | sold => if ltb zero stock' then active else sold
    | other => other
    end in
  if negb (leb zero stock') then inl (validationError "stock")
  else if dbRejects env saveProduct then inl databaseError
  else inr (withProducts db
              (<[productId := {| stock := stock'; productStatus := hooked |}]> (products db))).

(** [userSchema.methods.incrementSales], with the [min] validator of
    [sellerInfo.totalSales]. *)
Definition incrementSales (env : Env) (db : Db) (memberId : string) (m : Member)
    (amount : num) : Failure + Db :=
  let total := add (totalSales m) amount in
  if negb (leb zero total) then inl (validationError "sellerInfo.totalSales")
  else if dbRejects env saveMember then inl databaseError
  else inr (withMembers db
              (<[memberId := {| email := email m; name := name m; totalSales := total |}]>
                 (members db))).

(** The table [validTransitions] of [updateOrderStatus]. *)
Definition validTransitions : list (string * list string) :=
  [("pending", ["processing"; "cancelled"]);
   ("processing", ["ready_for_pickup"; "out_for_delivery"; "cancelled"]);
   ("ready_for_pickup", ["completed"; "cancelled"]);
   ("out_for_delivery", ["completed"; "cancelled"])].

Fixpoint property {A} (key : string) (object : list (string * A)) : option A :=
  match object with
  | [] => None
  | (k, v) :: rest => if String.eqb k key then Some v else property key rest
  end.

(** [validTransitions[order.status]?.includes(newStatus)]. *)
Definition transitionListed (current : OrderStatus) (newStatus : string) : bool :=
  match property (statusName current) validTransitions with
  | Some targets => existsb (String.eqb newStatus) targets
  | None => false
  end.

(** [order.items.some(item => item.seller.toString() === userId)]. *)
Definition sellsIn (order : Order) (userId : string) : bool :=
  existsb (fun item => String.eqb (seller item) userId) (items order).

(** The mail to the buyer, inside its [try]/[catch]. *)
Definition notifyBuyer (env : Env) (db : Db) (buyerDoc : Member) (newStatus : string)
    : Db :=
  match email buyerDoc with
  | Some address =>
      if truthy (email buyerDoc) then
        if mailFails env then db
        else {| orders := orders db; members := members db; products := products db;
                outbox := outbox db ++ [{| mailTo := address; mailStatus := newStatus |}] |}
      else db
  | None => db
  end.

(** The loop over the items of a completed order. *)
Fixpoint creditSellers (env : Env) (its : list Item) (db : Db) : option Failure * Db :=
  match its with
  | [] => (None, db)
  | item :: rest =>
      if dbRejects env findMember then (Some databaseError, db)
      else match members db !! seller item with
           | None => creditSellers env rest db
           | Some m =>
               match incrementSales env db (seller item) m
                       (mul (price item) (quantity item)) with
               | inl e => (Some e, db)
               | inr db' => creditSellers env rest db'
               end
           end
  end.

(** [updateOrderStatus] of the order service. *)
Definition updateOrderStatus (env : Env) (db : Db) (orderId userId newStatus : string)
    (note_ : string) : Result :=
  if dbRejects env findOrder then {| returned := inl databaseError; database := db |}
  else
    match orders db !! orderId with
    | None => {| returned := inl (appError "Order not found" 404); database := db |}
    | Some order =>
        if negb (sellsIn order userId) then
          {| returned := inl (appError "Only the seller can update order status" 403);
             database := db |}
        else if negb (transitionListed (status order) newStatus) then
          {| returned :=
               inl (appError ("Cannot change status from " +:+ statusName (status order)
                              +:+ " to " +:+ newStatus) 400);
             database := db |}
        else
          match updateStatus env db orderId order newStatus userId note_ with
          | inl e => {| returned := inl e; database := db |}
          | inr (order', db1) =>
              match members db !! buyer order with
              | None => {| returned := inl typeError; database := db1 |}
              | Some buyerDoc =>
                  let db2 := notifyBuyer env db1 buyerDoc newStatus in
                  if String.eqb newStatus "completed" then
                    match creditSellers env (items order') db2 with
                    | (Some e, db3) => {| returned := inl e; database := db3 |}
                    | (None, db3) => {| returned := inr order'; database := db3 |}
                    end
                  else {| returned := inr order'; database := db2 |}
              end
          end
    end.

(** The loop of [cancelOrder] that restores the stock. *)
Fixpoint restoreStock (env : Env) (its : list Item) (db : Db) : option Failure * Db :=
  match its with
  | [] => (None, db)
  | item :: rest =>
      match products db !! product item with
      | None => restoreStock env rest db
      | Some p =>
          match incrementStock env db (product item) p (quantity item) with
          | inl e => (Some e, db)
          | inr db' => restoreStock env rest db'
          end
      end
  end.

(** [cancelOrder] of the order service. *)
Definition cancelOrder (env : Env) (db : Db) (orderId userId : string) (reason : JsStr)
    : Result :=
  if dbRejects env findOrder then {| returned := inl databaseError; database := db |}
  else
    match orders db !! orderId with
    | None => {| returned := inl (appError "Order not found" 404); database := db |}
    | Some order =>
        match members db !! buyer order with
        | None => {| returned := inl typeError; database := db |}
        | Some buyerDoc =>
            let isBuyer := String.eqb (buyer order) userId in
            let isSeller := sellsIn order userId in
            if negb isBuyer && negb isSeller then
              {| returned := inl (appError "You cannot cancel this order" 403);
                 database := db |}
            else if negb (canBeCancelled order) then
              {| returned := inl (appError "Order cannot be cancelled at this stage" 400);
                 database := db |}
            else
              match restoreStock env (items order) db with
              | (Some e, db1) => {| returned := inl e; database := db1 |}
              | (None, db1) =>
                  match cancelOrderDoc env db1 orderId order userId reason with
                  | inl e => {| returned := inl e; database := db1 |}
                  | inr (order', db2) =>
                      {| returned := inr order';
                         database := notifyBuyer env db2 buyerDoc "cancelled" |}
                  end
              end
        end
    end.

(** The status of an order is the one its history ends with. *)
Definition historyCurrent (order : Order) : Prop :=
  exists earlier entry,
    statusHistory order = earlier ++ [entry]
    /\ entryStatus entry = statusName (status order).

(** The status the order [orderId] has in a database. *)
Definition statusIn (db : Db) (orderId : string) : option OrderStatus :=
  status <$> orders db !! orderId.

(** A call of [updateOrderStatus], with the collaborators as they are then. *)
Record StatusCall := {
  callEnv : Env;
  callOrderId : string;
  callUserId : string;
  callStatus : string;
  callNote : string;
}.

(** The database after a sequence of calls of [updateOrderStatus]. *)
Fixpoint updateAll (calls : list StatusCall) (db : Db) : Db :=
  match calls with
  | [] => db
  | c :: rest =>
      updateAll rest
        (database (updateOrderStatus (callEnv c) db (callOrderId c) (callUserId c)
                     (callStatus c) (callNote c)))
  end.

(** The product document that [incrementStock] saves. *)
Definition restocked (p : Product) (qty : num) : Product :=
  {| stock := add (stock p) qty;
     productStatus :=
       match productStatus p with
       | sold => if ltb zero (add (stock p) qty) then active else sold
       | other => other
       end |}.

(** The order document that the method [cancelOrder] saves. *)
Definition cancelledDoc (env : Env) (order : Order) (by_ : string) (reason : JsStr)
    : Order :=
  {| buyer := buyer order; items := items order; status := cancelled;
     statusHistory :=
       statusHistory order
       ++ [{| entryStatus := "cancelled"; updatedBy := Some by_;
              timestamp := clock env; note := reason |}];
     completedAt := completedAt order;
     cancelledBy := Some by_; cancelledAt := Some (clock env);
     cancellationReason := reason |}.

(** Every order of the database has a current history. *)
Definition historiesCurrent (db : Db) : Prop :=
  forall id order, orders db !! id = Some order -> historyCurrent order.

End WithNumbers.

(** An environment in which the database answers and the mail goes out. *)
Definition calmEnv : Env :=
  {| dbRejects := fun _ => false; mailFails := false; clock := 11 |}.

(** Whole numbers, for the examples. *)
Definition wholeNumbers : Numbers :=
  {| num := Z; zero := 0%Z; add := Z.add; mul := Z.mul; ltb := Z.ltb; leb := Z.leb |}.

(** An order of the seller ["s"] to the buyer ["b"], pending, for two units of
    the product ["p"], which is sold out; the buyer has an account. *)
Definition exampleOrder : @Order wholeNumbers :=
  @Build_Order wholeNumbers "b"
    [@Build_Item wholeNumbers "p" "s" 2%Z 10%Z]
    pending
    [{| entryStatus := "pending"; updatedBy := None; timestamp := 1;
        note := Some "Order created" |}]
    None None None None.

Definition exampleDb : @Db wholeNumbers :=
  @Build_Db wholeNumbers
    {[ "o" := exampleOrder ]}
    {[ "b" := @Build_Member wholeNumbers (Some "b@example.org") "B" 0%Z ]}
    {[ "p" := @Build_Product wholeNumbers 0%Z sold ]}
    [].

(** The same database after the buyer's account is gone. *)
Definition orphanDb : @Db wholeNumbers :=
  @Build_Db wholeNumbers
    {[ "o" := exampleOrder ]}
    ∅
    {[ "p" := @Build_Product wholeNumbers 0%Z sold ]}
    [].

End Orders.

(** ** Conversation identifiers *)

Example conversationId_ex1 : conversationId "u2" "u1" = "u1_u2".
Proof. reflexivity. Qed.

Example otherUserId_ex1 : otherUserId "u1_u2" (Some "u2") = Some "u1".
Proof. reflexivity. Qed.

Example js_split_ex1 : js_split SEP "a__b" = ["a"; ""; "b"].
Proof. reflexivity. Qed.

Lemma js_sort_pair a b :
  js_sort [a; b] = if String.leb a b then [a; b] else [b; a].
Proof. reflexivity. Qed.

Lemma js_sort_pair_comm a b : js_sort [a; b] = js_sort [b; a].
Proof.
  rewrite !js_sort_pair.
  destruct (String.leb a b) eqn:Hab, (String.leb b a) eqn:Hba; try reflexivity.
  - now rewrite (String.leb_antisym a b Hab Hba).
  - destruct (String.leb_total a b); congruence.
Qed.

Lemma js_join_pair a b : js_join "_" [a; b] = a +:+ String SEP b.
Proof. reflexivity. Qed.

Lemma js_split_nonempty sep s : js_split sep s <> [].
Proof.
  destruct s as [|c r]; cbn; [discriminate|].
  destruct (Ascii.eqb c sep); [discriminate|].
  destruct (js_split sep r); discriminate.
Qed.

Lemma separatorFree_tail c r :
  separatorFree (String c r) -> Ascii.eqb c SEP = false /\ separatorFree r.
Proof.
  unfold separatorFree. cbn [js_split].
  destruct (Ascii.eqb c SEP); [discriminate|].
  destruct (js_split SEP r) as [|p ps] eqn:E.
  - now destruct (js_split_nonempty SEP r).
  - intros [= -> ->]. auto.
Qed.

Lemma js_split_append a rest :
  separatorFree a ->
  js_split SEP (a +:+ String SEP rest) = a :: js_split SEP rest.
Proof.
  induction a as [|c r IH]; intros Hfree.
  - reflexivity.
  - apply separatorFree_tail in Hfree as [Hc Hr].
    change (String c r +:+ String SEP rest) with (String c (r +:+ String SEP rest)).
    cbn [js_split]. rewrite Hc, (IH Hr). reflexivity.
Qed.

Lemma js_split_pair a b :
  separatorFree a -> separatorFree b ->
  js_split SEP (js_join "_" [a; b]) = [a; b].
Proof.
  intros Ha Hb. rewrite js_join_pair, (js_split_append _ _ Ha). now rewrite Hb.
Qed.

Lemma otherUserId_pair a b reader :
  separatorFree a -> separatorFree b ->
  otherUserId (js_join "_" [a; b]) reader
  = if decide (Some a = reader) then Some b else Some a.
Proof.
  intros Ha Hb. unfold otherUserId. now rewrite (js_split_pair _ _ Ha Hb).
Qed.

(** C1. The conversation identifier does not depend on the order of the two
    identities; and the read path, which receives the identifier and splits
    it at the separator, finds in the identifier made by the send path the
    participant that is not the reader. *)
Theorem conversationId_symmetric (a b : string) :
  conversationId a b = conversationId b a
  /\ (separatorFree a -> separatorFree b ->
      otherUserId (conversationId a b) (Some a) = Some b
      /\ otherUserId (conversationId a b) (Some b) = Some a).
Proof.
  split.
  - unfold conversationId. now rewrite js_sort_pair_comm.
  - intros Ha Hb. unfold conversationId. rewrite js_sort_pair.
    destruct (String.leb a b);
      rewrite !otherUserId_pair by assumption;
      repeat case_decide; simplify_eq; auto; congruence.
Qed.

Lemma conversationId_symmetric_witness :
  conversationId "64a1" "64b2" = conversationId "64b2" "64a1"
  /\ otherUserId (conversationId "64a1" "64b2") (Some "64a1") = Some "64b2"
  /\ otherUserId (conversationId "64a1" "64b2") (Some "64b2") = Some "64a1".
Proof.
  destruct (conversationId_symmetric "64a1" "64b2") as [Hsym Hread].
  split; [exact Hsym|]. apply Hread; reflexivity.
Defined.

(** ** The live layer *)

Lemma connect_accepted v sid token s u :
  authMiddleware v token = inr u ->
  connect v sid token s
  = (Connected {| socket_id := sid; socket_userId := u |},
     (onConnection {| socket_id := sid; socket_userId := u |} s).1,
     (onConnection {| socket_id := sid; socket_userId := u |} s).2).
Proof. intros H. unfold connect. now rewrite H. Qed.

Lemma connect_refused v sid token s e :
  authMiddleware v token = inl e -> connect v sid token s = (Refused e, s, []).
Proof. intros H. unfold connect. now rewrite H. Qed.

Lemma authMiddleware_failure v token :
  jwt_verify v token = None -> authMiddleware v token = inl "Authentication error".
Proof. intros H. unfold authMiddleware. now rewrite H. Qed.

(** C9. A connection attempt whose token fails verification is refused with
    the server left as it was: the presence registry, the focus map and the
    table of live sockets are unchanged and nothing is broadcast. A missing
    token is such a failure. *)
Theorem failed_authentication_mutates_nothing
    (v : string -> option JwtPayload) (s : Server) (sid : string) (token : JsStr) :
  jwt_verify v token = None ->
  connect v sid token s = (Refused "Authentication error", s, [])
  /\ step v s (Handshake sid token) = (s, [])
  /\ jwt_verify v None = None.
Proof.
  intros Hfail. apply authMiddleware_failure in Hfail.
  repeat split.
  - now apply connect_refused.
  - cbn [step]. now rewrite (connect_refused _ _ _ _ _ Hfail).
Qed.

Lemma failed_authentication_mutates_nothing_witness :
  jwt_verify exampleVerifier (Some "forged") = None
  /\ connect exampleVerifier "s9" (Some "forged") initial_server
     = (Refused "Authentication error", initial_server, []).
Proof.
  split; [reflexivity|].
  apply (failed_authentication_mutates_nothing exampleVerifier initial_server
           "s9" (Some "forged")).
  reflexivity.
Defined.

Lemma step_disconnect v s sid u :
  sockets s !! sid = Some u ->
  step v s (Disconnect sid)
  = onDisconnect {| socket_id := sid; socket_userId := u |} s.
Proof. intros H. cbn [step]. unfold onLive. now rewrite H. Qed.

Lemma step_leave v s sid u c :
  sockets s !! sid = Some u ->
  step v s (LeaveConversation sid c)
  = onLeaveConversation {| socket_id := sid; socket_userId := u |} c s.
Proof. intros H. cbn [step]. unfold onLive. now rewrite H. Qed.

Lemma isOnline_false s u : onlineUsers s !! u = None -> isOnline s u = false.
Proof.
  intros H. unfold isOnline. apply bool_decide_eq_false. rewrite H.
  intros [? ?]; discriminate.
Qed.


(** C4, as stated, fails: with two live connections of [u1], the disconnection
    of the first removes the presence entry of [u1] and its focus, although the
    second connection is still live. *)
Lemma partial_disconnect_counterexample :
  ~ partialDisconnectKeeps exampleVerifier twoTabs "s1" "s2" (Some "u1").
Proof.
  unfold partialDisconnectKeeps. intros H.
  assert (Honline : isOnline (after exampleVerifier twoTabs (Disconnect "s1"))
                      (Some "u1") = true).
  { apply H; [vm_compute; reflexivity .. | discriminate | vm_compute; reflexivity]. }
  vm_compute in Honline. discriminate Honline.
Qed.

(** C4, amended. The disconnection of any connection of an identity, be it
    the last one or one of several, removes the presence entry of the identity
    and clears its focus; the other connections stay live, and the new set of
    online identities is broadcast. *)
Theorem disconnect_clears_presence_and_focus
    (v : string -> option JwtPayload) (s : Server) (sid : string) (u : JsStr) :
  sockets s !! sid = Some u ->
  isOnline (after v s (Disconnect sid)) u = false
  /\ focusOf (after v s (Disconnect sid)) u = None
  /\ (forall sid', sid' <> sid ->
        sockets (after v s (Disconnect sid)) !! sid' = sockets s !! sid')
  /\ (step v s (Disconnect sid)).2
     = [broadcastOnlineUsers (after v s (Disconnect sid))].
Proof.
  intros Hlive. unfold after. rewrite (step_disconnect _ _ _ _ Hlive).
  cbn. repeat split.
  - apply isOnline_false. cbn. apply lookup_delete_eq.
  - unfold focusOf. cbn. apply lookup_delete_eq.
  - intros sid' Hne. now apply lookup_delete_ne.
Qed.

Lemma disconnect_clears_presence_and_focus_witness :
  sockets twoTabs !! "s1" = Some (Some "u1")
  /\ sockets twoTabs !! "s2" = Some (Some "u1")
  /\ isOnline twoTabs (Some "u1") = true
  /\ isOnline (after exampleVerifier twoTabs (Disconnect "s1")) (Some "u1") = false
  /\ focusOf (after exampleVerifier twoTabs (Disconnect "s1")) (Some "u1") = None
  /\ sockets (after exampleVerifier twoTabs (Disconnect "s1")) !! "s2" = Some (Some "u1").
Proof.
  assert (Hlive : sockets twoTabs !! "s1" = Some (Some "u1")) by (vm_compute; reflexivity).
  destruct (disconnect_clears_presence_and_focus exampleVerifier twoTabs "s1"
              (Some "u1") Hlive) as (Hoff & Hfocus & Hothers & _).
  repeat split; try assumption; try (vm_compute; reflexivity).
Defined.

(** C5, as stated, fails: [u1] views ["u1_u3"], and a late leave event for
    ["u1_u2"] clears that focus. *)
Lemma stale_leave_counterexample :
  ~ leaveIsGuarded exampleVerifier switchedThread "s1" (Some "u1") "u1_u2".
Proof.
  unfold leaveIsGuarded. intros H.
  assert (Hfocus : focusOf switchedThread (Some "u1") = Some "u1_u3")
    by (vm_compute; reflexivity).
  rewrite Hfocus in H.
  specialize (H ltac:(vm_compute; reflexivity) ltac:(discriminate)).
  vm_compute in H. discriminate.
Qed.

(** C5, amended. A leave event clears the focus of the identity of the
    socket whatever conversation it names and whatever the current focus is;
    the presence registry is untouched and nothing is emitted. *)
Theorem leave_clears_focus_unconditionally
    (v : string -> option JwtPayload) (s : Server) (sid : string) (u : JsStr)
    (c : string) :
  sockets s !! sid = Some u ->
  focusOf (after v s (LeaveConversation sid c)) u = None
  /\ onlineUsers (after v s (LeaveConversation sid c)) = onlineUsers s
  /\ (step v s (LeaveConversation sid c)).2 = [].
Proof.
  intros Hlive. unfold after. rewrite (step_leave _ _ _ _ _ Hlive).
  cbn. repeat split. unfold focusOf. cbn. apply lookup_delete_eq.
Qed.

Lemma leave_clears_focus_unconditionally_witness :
  focusOf switchedThread (Some "u1") = Some "u1_u3"
  /\ focusOf (after exampleVerifier switchedThread (LeaveConversation "s1" "u1_u2"))
       (Some "u1") = None.
Proof.
  split; [vm_compute; reflexivity|].
  apply (leave_clears_focus_unconditionally exampleVerifier switchedThread "s1"
           (Some "u1") "u1_u2").
  vm_compute; reflexivity.
Defined.

(** *** The presence registry along a trace *)

Lemma run_cons v s e trace :
  run v s (e :: trace)
  = ((run v (after v s e) trace).1,
     (step v s e).2 ++ (run v (after v s e) trace).2).
Proof.
  cbn [run]. unfold after.
  destruct (step v s e) as [s1 out1]. cbn [fst snd].
  now destruct (run v s1 trace) as [s2 out2].
Qed.

Lemma onLive_onlineUsers sid h s :
  (forall k s0, onlineUsers (h k s0).1 = onlineUsers s0) ->
  onlineUsers (onLive sid h s).1 = onlineUsers s.
Proof. intros Hh. unfold onLive. destruct (sockets s !! sid); [apply Hh | reflexivity]. Qed.

(** An entry of the registry after one event was there before, or the event
    is the handshake that wrote it. *)
Lemma step_onlineUsers v s e u h :
  onlineUsers (after v s e) !! u = Some h ->
  (onlineUsers s !! u = Some h /\ ~ authenticatesAs v u e)
  \/ (exists token, e = Handshake h token /\ authMiddleware v token = inr u).
Proof.
  unfold after.
  destruct e as [sid token|sid c|sid c|sid c r t|sid c|sid m|sid m r|sid]; cbn [step].
  - unfold connect. destruct (authMiddleware v token) as [err|u'] eqn:Hauth; cbn.
    + intros H. left. split; [exact H|]. rewrite Hauth. discriminate.
    + destruct (decide (u' = u)) as [->|Hne].
      * rewrite lookup_insert_eq. intros [= ->]. right. eauto.
      * rewrite lookup_insert_ne by exact Hne. intros H. left.
        split; [exact H|]. rewrite Hauth. congruence.
  - rewrite onLive_onlineUsers by reflexivity. cbn. tauto.
  - rewrite onLive_onlineUsers by reflexivity. cbn. tauto.
  - rewrite onLive_onlineUsers by reflexivity. cbn. tauto.
  - rewrite onLive_onlineUsers by reflexivity. cbn. tauto.
  - rewrite onLive_onlineUsers by reflexivity. cbn. tauto.
  - rewrite onLive_onlineUsers by reflexivity. cbn. tauto.
  - unfold onLive. destruct (sockets s !! sid) as [uid|]; cbn; [|tauto].
    intros [_ H]%lookup_delete_Some. tauto.
Qed.

(** Along a trace, an entry of the registry either was there at the start,
    with no later handshake of that identity, or was written by the last
    handshake of that identity in the trace. *)
Lemma run_onlineUsers v trace : forall s u h,
  onlineUsers (run v s trace).1 !! u = Some h ->
  (onlineUsers s !! u = Some h /\ Forall (fun e => ~ authenticatesAs v u e) trace)
  \/ (exists pre token post,
        trace = pre ++ Handshake h token :: post
        /\ authMiddleware v token = inr u
        /\ Forall (fun e => ~ authenticatesAs v u e) post).
Proof.
  induction trace as [|e trace IH]; intros s u h.
  - cbn. intros H. left. split; [exact H | constructor].
  - rewrite run_cons. cbn [fst]. intros H.
    destruct (IH _ _ _ H) as [[Hprev Hnone]|(pre & token & post & -> & Hauth & Hpost)].
    + destruct (step_onlineUsers _ _ _ _ _ Hprev) as [[Hs Hne]|(token & -> & Hauth)].
      * left. split; [exact Hs | now constructor].
      * right. exists [], token, trace. auto.
    + right. exists (e :: pre), token, post. auto.
Qed.

(** A handshake that authenticates an identity writes its socket id over
    whatever handle the registry held for the identity. *)
Lemma handshake_overwrites v s sid token u :
  authMiddleware v token = inr u ->
  onlineUsers (after v s (Handshake sid token)) !! u = Some sid.
Proof.
  intros Hauth. unfold after. cbn [step].
  rewrite (connect_accepted _ _ _ _ _ Hauth). cbn. apply lookup_insert_eq.
Qed.

(** ** The REST paths *)

Lemma bind_unfold {A B} (c : M A) (k : A -> M B) st :
  (c ≫= k) st
  = match outcome (c st) with
    | Returned a =>
        {| outcome := outcome (k a (store (c st)));
           store := store (k a (store (c st)));
           emitted := emitted (c st) ++ emitted (k a (store (c st))) |}
    | Threw e => {| outcome := Threw e; store := store (c st); emitted := emitted (c st) |}
    end.
Proof. reflexivity. Qed.

Lemma storeCall_up {A} ctx op (f : Store -> A * Store) st :
  storeFails ctx op = false ->
  storeCall ctx op f st
  = {| outcome := Returned (f st).1; store := (f st).2; emitted := [] |}.
Proof. intros H. unfold storeCall. rewrite H. now destruct (f st). Qed.

Lemma storeCall_emits {A} ctx op (f : Store -> A * Store) st :
  emitted (storeCall ctx op f st) = [].
Proof. unfold storeCall. destruct (storeFails ctx op); [reflexivity|]. now destruct (f st). Qed.

Lemma User_findById_pure ctx id st :
  store (User_findById ctx id st) = st /\ emitted (User_findById ctx id st) = [].
Proof. unfold User_findById. now destruct (findUser ctx id). Qed.

Lemma sendNewMessageEmail_pure ctx a n p st :
  store (sendNewMessageEmail ctx a n p st) = st
  /\ emitted (sendNewMessageEmail ctx a n p st) = [].
Proof. unfold sendNewMessageEmail. now destruct (mailFails ctx _). Qed.

(** The notification block touches neither the store nor the sockets. *)
Lemma sendMessage_notify_pure ctx senderId recip text message st :
  store (sendMessage_notify ctx senderId recip text message st) = st
  /\ emitted (sendMessage_notify ctx senderId recip text message st) = [].
Proof.
  unfold sendMessage_notify. rewrite bind_unfold.
  destruct (User_findById_pure ctx recip st) as [Hs1 He1].
  destruct (outcome (User_findById ctx recip st)) as [r|e]; cbn [store emitted];
    rewrite ?Hs1, ?He1; [|now split].
  rewrite bind_unfold.
  destruct (User_findById_pure ctx senderId st) as [Hs2 He2].
  destruct (outcome (User_findById ctx senderId st)) as [s|e]; cbn [store emitted];
    rewrite ?Hs2, ?He2; [|now split].
  destruct r as [r|], s as [s|]; try (now split).
  destruct (email r) as [addr|]; try (now split).
  destruct (truthy (Some addr)); try (now split).
  apply sendNewMessageEmail_pure.
Qed.

(** Whatever the notification block does, the [try]/[catch] around it ends
    normally, with the store as it was and nothing emitted. *)
Lemma notification_swallowed ctx senderId recip text message st :
  tryCatch (sendMessage_notify ctx senderId recip text message)
           (fun _ => mret tt) st
  = {| outcome := Returned tt; store := st; emitted := [] |}.
Proof.
  unfold tryCatch.
  destruct (sendMessage_notify_pure ctx senderId recip text message st) as [Hs He].
  destruct (sendMessage_notify ctx senderId recip text message st) as [[[]|e] st' out];
    cbn in *; subst; reflexivity.
Qed.

(** The socket block of [sendMessage] ends normally and leaves the store. *)
Lemma sendMessage_push_pure ctx senderId recip cid viewing message st :
  outcome (sendMessage_push ctx senderId recip cid viewing message st) = Returned tt
  /\ store (sendMessage_push ctx senderId recip cid viewing message st) = st.
Proof.
  unfold sendMessage_push.
  destruct (io ctx); [|now split].
  destruct (socketOf (live ctx) (Some recip)); [|now split].
  destruct viewing; [|now split].
  destruct (socketOf (live ctx) (Some senderId)); now split.
Qed.

Lemma sendMessage_push_store_irrelevant ctx senderId recip cid viewing message st st' :
  emitted (sendMessage_push ctx senderId recip cid viewing message st)
  = emitted (sendMessage_push ctx senderId recip cid viewing message st').
Proof.
  unfold sendMessage_push.
  destruct (io ctx); [|reflexivity].
  destruct (socketOf (live ctx) (Some recip)); [|reflexivity].
  destruct viewing; [|reflexivity].
  now destruct (socketOf (live ctx) (Some senderId)).
Qed.

(** The run of [sendMessage] when no store call is rejected. *)
Lemma sendMessage_run ctx req st :
  storeUp ctx ->
  sendMessage ctx req st
  = {| outcome := Returned (sentResponse (sentMessage ctx req st));
       store := <[fresh (dom st) := sentMessage ctx req st]> st;
       emitted :=
         emitted (sendMessage_push ctx (send_userId req) (send_recipient req)
                    (conversationId (send_userId req) (send_recipient req))
                    (recipientViewing ctx req)
                    (sentMessage ctx req st) st) |}.
Proof.
  intros Hup. unfold sendMessage, Message_create, Message_populate.
  rewrite bind_unfold, storeCall_up by apply Hup. cbn [outcome store emitted fst snd].
  rewrite bind_unfold, storeCall_up by apply Hup. cbn [outcome store emitted fst snd].
  unfold sentMessage, recipientViewing, focusOf.
  set (created := newDocument ctx (messageDataOf req) (fresh (dom st))).
  set (viewing := bool_decide (_ = _)).
  rewrite bind_unfold.
  assert (Hmsg :
    (if viewing then Message_save ctx (readNow ctx created) ;; mret (readNow ctx created)
     else mret created) (<[_id created := created]> st)
    = {| outcome := Returned (if viewing then readNow ctx created else created);
         store := <[fresh (dom st) := if viewing then readNow ctx created else created]> st;
         emitted := [] |}).
  { destruct viewing; [|reflexivity].
    rewrite bind_unfold. unfold Message_save.
    rewrite storeCall_up by apply Hup. cbn [outcome store emitted fst snd].
    cbn. now rewrite insert_insert_eq. }
  rewrite Hmsg. cbn [outcome store emitted].
  set (message := if viewing then readNow ctx created else created).
  rewrite bind_unfold.
  destruct (sendMessage_push_pure ctx (send_userId req) (send_recipient req)
              (conversationId (send_userId req) (send_recipient req)) viewing message
              (<[fresh (dom st) := message]> st)) as [Ho Hs].
  rewrite Ho, Hs. cbn [outcome store emitted].
  rewrite bind_unfold, notification_swallowed. cbn [outcome store emitted].
  cbn. rewrite !app_nil_r. f_equal.
  apply sendMessage_push_store_irrelevant.
Qed.

Lemma sentMessage_id ctx req st : _id (sentMessage ctx req st) = fresh (dom st).
Proof. unfold sentMessage. now destruct (recipientViewing ctx req). Qed.

Lemma sentMessage_stored ctx req st :
  storeUp ctx ->
  store (sendMessage ctx req st) !! _id (sentMessage ctx req st)
  = Some (sentMessage ctx req st).
Proof.
  intros Hup. rewrite (sendMessage_run _ _ _ Hup), sentMessage_id. cbn [store].
  apply lookup_insert_eq.
Qed.

(** The message is new: the store had nothing under its id. *)
Lemma sentMessage_fresh ctx req (st : Store) :
  st !! _id (sentMessage ctx req st) = None.
Proof.
  rewrite sentMessage_id. apply not_elem_of_dom. apply is_fresh.
Qed.

(** C2, as stated, fails: [u2] has the conversation with [u1] in focus but no
    entry in the presence registry, [u1] is online, and the send of [u1]
    emits nothing, so no [messagesRead] reaches [u1]. *)
Lemma auto_read_receipt_counterexample :
  ~ autoReadReachesSender (exampleCtx focusedButUnregistered) hiRequest ∅.
Proof.
  unfold autoReadReachesSender. intros H.
  destruct (H ltac:(intros op; reflexivity) eq_refl ltac:(vm_compute; reflexivity)
              "s3" ltac:(vm_compute; reflexivity))
    as (m & _ & _ & _ & _ & Hin).
  rewrite sendMessage_run in Hin by (intros op; reflexivity).
  cbn [emitted] in Hin. unfold sendMessage_push in Hin.
  replace (socketOf (live (exampleCtx focusedButUnregistered))
             (Some (send_recipient hiRequest))) with (@None string) in Hin
    by (vm_compute; reflexivity).
  cbn in Hin. exact Hin.
Qed.

(** The events of the socket block, case by case. *)
Lemma sendMessage_push_events ctx senderId recip cid viewing message st :
  emitted (sendMessage_push ctx senderId recip cid viewing message st)
  = if io ctx then
      match socketOf (live ctx) (Some recip) with
      | Some rs =>
          {| target := ToRoom (Some rs);
             event := newMessage (newMessagePayloadOf message cid) |}
          :: (if viewing then
                match socketOf (live ctx) (Some senderId) with
                | Some ss =>
                    [{| target := ToRoom (Some ss);
                        event := messagesRead cid (Some recip) (Some [_id message]) |}]
                | None => []
                end
              else [])
      | None => []
      end
    else [].
Proof.
  unfold sendMessage_push.
  destruct (io ctx); [|reflexivity].
  destruct (socketOf (live ctx) (Some recip)); [|reflexivity].
  destruct viewing; [|reflexivity].
  now destruct (socketOf (live ctx) (Some senderId)).
Qed.

Lemma sendMessage_events ctx req st :
  storeUp ctx ->
  emitted (sendMessage ctx req st)
  = emitted (sendMessage_push ctx (send_userId req) (send_recipient req)
               (conversationId (send_userId req) (send_recipient req))
               (recipientViewing ctx req) (sentMessage ctx req st) st).
Proof. intros Hup. now rewrite (sendMessage_run _ _ _ Hup). Qed.

(** Whatever the focus, a [newMessage] of the send path carries the stored
    message, whose [isRead] is the focus decision. *)
Lemma newMessage_carries_decision ctx req st e p :
  storeUp ctx ->
  In e (emitted (sendMessage ctx req st)) ->
  event e = newMessage p ->
  p = newMessagePayloadOf (sentMessage ctx req st)
        (conversationId (send_userId req) (send_recipient req))
  /\ nm_isRead p = recipientViewing ctx req.
Proof.
  intros Hup Hin Hev.
  rewrite (sendMessage_events _ _ _ Hup), sendMessage_push_events in Hin.
  assert (Hread : isRead (sentMessage ctx req st) = recipientViewing ctx req)
    by (unfold sentMessage; now destruct (recipientViewing ctx req)).
  destruct (io ctx); [|contradiction].
  destruct (socketOf (live ctx) (Some (send_recipient req))); [|contradiction].
  destruct Hin as [<-|Hin].
  - cbn in Hev. injection Hev as <-. now split.
  - destruct (recipientViewing ctx req); [|contradiction].
    destruct (socketOf (live ctx) (Some (send_userId req))); [|contradiction].
    destruct Hin as [<-|[]]. discriminate Hev.
Qed.

(** C2, amended. A send to a recipient whose focus is the conversation with
    the sender returns 201 with the message stored as read, [readAt] being
    the time of the request. With the Socket.IO server attached, the
    [messagesRead] event naming the recipient as reader and carrying the id
    of the message is sent to the handle registered for the sender when both
    the recipient and the sender have a handle in the presence registry; when
    the recipient has none, the send path emits nothing. *)
Theorem auto_read_receipt_needs_both_online
    (ctx : Ctx) (req : SendRequest) (st : Store) :
  storeUp ctx ->
  recipientViewing ctx req = true ->
  outcome (sendMessage ctx req st) = Returned (sentResponse (sentMessage ctx req st))
  /\ store (sendMessage ctx req st) !! _id (sentMessage ctx req st)
     = Some (sentMessage ctx req st)
  /\ st !! _id (sentMessage ctx req st) = None
  /\ isRead (sentMessage ctx req st) = true
  /\ readAt (sentMessage ctx req st) = Some (now ctx)
  /\ (forall rs ss,
        io ctx = true ->
        socketOf (live ctx) (Some (send_recipient req)) = Some rs ->
        socketOf (live ctx) (Some (send_userId req)) = Some ss ->
        In (autoReadReceipt req ss (sentMessage ctx req st))
           (emitted (sendMessage ctx req st)))
  /\ (socketOf (live ctx) (Some (send_recipient req)) = None ->
      emitted (sendMessage ctx req st) = []).
Proof.
  intros Hup Hview.
  split; [now rewrite (sendMessage_run _ _ _ Hup)|].
  split; [now apply sentMessage_stored|].
  split; [apply sentMessage_fresh|].
  split; [unfold sentMessage; now rewrite Hview|].
  split; [unfold sentMessage; now rewrite Hview|].
  rewrite (sendMessage_events _ _ _ Hup), sendMessage_push_events, Hview.
  split.
  - intros rs ss -> -> ->. right. left. reflexivity.
  - intros ->. now destruct (io ctx).
Qed.

Lemma auto_read_receipt_needs_both_online_witness :
  recipientViewing (exampleCtx viewingThread) hiRequest = true
  /\ isRead (sentMessage (exampleCtx viewingThread) hiRequest ∅) = true
  /\ In (autoReadReceipt hiRequest "s1"
           (sentMessage (exampleCtx viewingThread) hiRequest ∅))
        (emitted (sendMessage (exampleCtx viewingThread) hiRequest ∅)).
Proof.
  assert (Hup : storeUp (exampleCtx viewingThread)) by (intros op; reflexivity).
  assert (Hview : recipientViewing (exampleCtx viewingThread) hiRequest = true)
    by (vm_compute; reflexivity).
  destruct (auto_read_receipt_needs_both_online (exampleCtx viewingThread) hiRequest ∅
              Hup Hview) as (_ & _ & _ & Hread & _ & Hreceipt & _).
  split; [exact Hview|]. split; [exact Hread|].
  apply (Hreceipt "s2" "s1"); vm_compute; reflexivity.
Defined.

(** C3. A send to a recipient whose focus is not the conversation with the
    sender returns 201 with the message stored unread and without [readAt];
    the send path emits no [messagesRead]; every [newMessage] it emits
    carries [isRead = false] and no [readAt], the values of the stored
    message; and that [newMessage] is sent to the handle of the recipient
    when the recipient has one. *)
Theorem no_focus_no_read_receipt (ctx : Ctx) (req : SendRequest) (st : Store) :
  storeUp ctx ->
  recipientViewing ctx req = false ->
  outcome (sendMessage ctx req st) = Returned (sentResponse (sentMessage ctx req st))
  /\ store (sendMessage ctx req st) !! _id (sentMessage ctx req st)
     = Some (sentMessage ctx req st)
  /\ st !! _id (sentMessage ctx req st) = None
  /\ isRead (sentMessage ctx req st) = false
  /\ readAt (sentMessage ctx req st) = None
  /\ Forall (fun e => is_messagesRead e = false) (emitted (sendMessage ctx req st))
  /\ (forall e p,
        In e (emitted (sendMessage ctx req st)) -> event e = newMessage p ->
        nm__id p = _id (sentMessage ctx req st)
        /\ nm_isRead p = false /\ nm_readAt p = None)
  /\ (forall rs,
        io ctx = true ->
        socketOf (live ctx) (Some (send_recipient req)) = Some rs ->
        emitted (sendMessage ctx req st)
        = [{| target := ToRoom (Some rs);
              event := newMessage
                         (newMessagePayloadOf (sentMessage ctx req st)
                            (conversationId (send_userId req) (send_recipient req))) |}]).
Proof.
  intros Hup Hview.
  assert (Hread : isRead (sentMessage ctx req st) = false)
    by (unfold sentMessage; now rewrite Hview).
  assert (HreadAt : readAt (sentMessage ctx req st) = None)
    by (unfold sentMessage; now rewrite Hview).
  split; [now rewrite (sendMessage_run _ _ _ Hup)|].
  split; [now apply sentMessage_stored|].
  split; [apply sentMessage_fresh|].
  split; [exact Hread|]. split; [exact HreadAt|].
  rewrite (sendMessage_events _ _ _ Hup), sendMessage_push_events, Hview.
  destruct (io ctx); [|repeat split; (constructor || contradiction || discriminate)].
  destruct (socketOf (live ctx) (Some (send_recipient req))) as [rs|];
    [|repeat split; (constructor || contradiction || discriminate)].
  split; [repeat constructor|]. split.
  - intros e p [<-|[]] [= <-]. cbn. auto.
  - now intros rs' _ [= ->].
Qed.

Lemma no_focus_no_read_receipt_witness :
  recipientViewing (exampleCtx bothOnline) hiRequest = false
  /\ isRead (sentMessage (exampleCtx bothOnline) hiRequest ∅) = false
  /\ Forall (fun e => is_messagesRead e = false)
       (emitted (sendMessage (exampleCtx bothOnline) hiRequest ∅)).
Proof.
  assert (Hup : storeUp (exampleCtx bothOnline)) by (intros op; reflexivity).
  assert (Hview : recipientViewing (exampleCtx bothOnline) hiRequest = false)
    by (vm_compute; reflexivity).
  destruct (no_focus_no_read_receipt (exampleCtx bothOnline) hiRequest ∅ Hup Hview)
    as (_ & _ & _ & Hread & _ & Hnone & _).
  auto.
Defined.

Lemma storeUp_withNotifier ctx lookup fails :
  storeUp ctx -> storeUp (withNotifier ctx lookup fails).
Proof. intros Hup op. exact (Hup op). Qed.

(** C8. When no store call is rejected, the send returns 201 and leaves the
    message in the store whatever the account lookups and the mail transport
    of the notification do, failures included: response, store and emitted
    events are those of the same send with any other behaviour of the two. *)
Theorem notification_failure_never_fails_send
    (ctx : Ctx) (req : SendRequest) (st : Store)
    (lookup : string -> Lookup) (fails : Mail -> bool) :
  storeUp ctx ->
  sendMessage (withNotifier ctx lookup fails) req st = sendMessage ctx req st
  /\ outcome (sendMessage ctx req st)
     = Returned (sentResponse (sentMessage ctx req st))
  /\ store (sendMessage ctx req st) !! _id (sentMessage ctx req st)
     = Some (sentMessage ctx req st).
Proof.
  intros Hup. split; [|split].
  - rewrite (sendMessage_run _ _ _ Hup),
      (sendMessage_run _ _ _ (storeUp_withNotifier _ lookup fails Hup)).
    reflexivity.
  - now rewrite (sendMessage_run _ _ _ Hup).
  - now apply sentMessage_stored.
Qed.

Lemma notification_failure_never_fails_send_witness :
  outcome (sendMessage_notify
             (withNotifier (exampleCtx bothOnline) everyoneHasMail transportDown)
             "u1" "u2" (Some "hi")
             (sentMessage (exampleCtx bothOnline) hiRequest ∅) ∅)
  = Threw MailError
  /\ outcome (sendMessage
                (withNotifier (exampleCtx bothOnline) everyoneHasMail transportDown)
                hiRequest ∅)
     = Returned (sentResponse (sentMessage (exampleCtx bothOnline) hiRequest ∅)).
Proof.
  split; [reflexivity|].
  destruct (notification_failure_never_fails_send (exampleCtx bothOnline) hiRequest ∅
              everyoneHasMail transportDown ltac:(intros op; reflexivity))
    as (Heq & Hout & _).
  rewrite Heq. exact Hout.
Defined.

(** *** [markAsRead] *)

Lemma nothingUnread_no_write ctx cid reader (st : Store) :
  nothingUnread cid reader st ->
  (fun m => if unreadFor cid reader m then markRead (storeClock ctx) m else m) <$> st = st.
Proof.
  intros Hnone. apply map_eq. intros i. rewrite lookup_fmap.
  destruct (st !! i) as [m|] eqn:Hm; [|reflexivity].
  cbn. now rewrite (Hnone _ _ Hm).
Qed.

Lemma nothingUnread_no_ids cid reader (st : Store) :
  nothingUnread cid reader st ->
  (map_to_list (filter (fun kv => unreadFor cid reader kv.2 = true) st)).*1 = [].
Proof.
  intros Hnone.
  assert (Hempty : filter (fun kv : nat * Message => unreadFor cid reader kv.2 = true) st = ∅).
  { apply map_empty. intros i. apply map_lookup_filter_None.
    destruct (st !! i) as [m|] eqn:Hm; [right|now left].
    intros m' [= <-]. cbn. rewrite (Hnone _ _ Hm). discriminate. }
  rewrite Hempty, map_to_list_empty. reflexivity.
Qed.

Lemma unreadFor_markRead cid reader time m : unreadFor cid reader (markRead time m) = false.
Proof. unfold unreadFor. cbn. apply andb_false_r. Qed.

(** After the flip, nothing of the conversation is unread for the reader. *)
Lemma nothingUnread_after_flip ctx cid reader (st : Store) :
  nothingUnread cid reader
    ((fun m => if unreadFor cid reader m then markRead (storeClock ctx) m else m) <$> st).
Proof.
  intros i m'. rewrite lookup_fmap.
  destruct (st !! i) as [m|]; [|discriminate].
  cbn. intros [= <-].
  destruct (unreadFor cid reader m) eqn:Hu; [apply unreadFor_markRead | exact Hu].
Qed.

(** The run of [markAsRead] when no store call is rejected. *)
Lemma markAsRead_run ctx req (st : Store) :
  storeUp ctx ->
  markAsRead ctx req st
  = {| outcome := Returned markedResponse;
       store := (fun m => if unreadFor (mark_conversationId req) (mark_userId req) m
                          then markRead (storeClock ctx) m else m) <$> st;
       emitted :=
         if io ctx then
           match socketOf (live ctx)
                   (otherUserId (mark_conversationId req) (Some (mark_userId req))) with
           | Some h =>
               [{| target := ToRoom (Some h);
                   event := messagesRead (mark_conversationId req)
                              (Some (mark_userId req))
                              (Some (map_to_list
                                       (filter (fun kv => unreadFor (mark_conversationId req)
                                                            (mark_userId req) kv.2 = true)
                                          st)).*1) |}]
           | None => []
           end
         else [] |}.
Proof.
  intros Hup. unfold markAsRead, Message_markConversationAsRead.
  rewrite bind_unfold, storeCall_up by apply Hup. cbn [outcome store emitted fst snd].
  rewrite bind_unfold.
  destruct (io ctx); [|reflexivity].
  destruct (socketOf (live ctx) _); reflexivity.
Qed.

(** C6, as stated, fails: the store is empty, [u1] is online, and the
    mark-as-read of [u2] sends [u1] a [messagesRead] event with an empty list
    of ids. *)
Lemma reread_counterexample :
  ~ rereadIsSilent (exampleCtx bothOnline) readRequest ∅.
Proof.
  unfold rereadIsSilent. intros H.
  destruct (H ltac:(intros op; reflexivity)
              ltac:(intros id m Hm; rewrite lookup_empty in Hm; discriminate))
    as [_ Hemit].
  vm_compute in Hemit. discriminate Hemit.
Qed.

(** C6, amended. Marking as read a conversation with nothing unread for the
    reader returns 200, writes nothing and collects no id; with the Socket.IO
    server attached and a handle registered for the other participant, a
    [messagesRead] event with an empty list of ids is still sent to that
    handle, and nothing is emitted otherwise. After any mark-as-read nothing
    is unread, so that a second call in a row is such a call. *)
Theorem reread_writes_nothing_but_notifies
    (ctx : Ctx) (req : MarkAsReadRequest) (st : Store) :
  storeUp ctx ->
  nothingUnread (mark_conversationId req) (mark_userId req) st ->
  outcome (markAsRead ctx req st) = Returned markedResponse
  /\ store (markAsRead ctx req st) = st
  /\ emitted (markAsRead ctx req st)
     = (if io ctx then
          match socketOf (live ctx)
                  (otherUserId (mark_conversationId req) (Some (mark_userId req))) with
          | Some h =>
              [{| target := ToRoom (Some h);
                  event := messagesRead (mark_conversationId req)
                             (Some (mark_userId req)) (Some []) |}]
          | None => []
          end
        else [])
  /\ (forall st0 : Store,
        nothingUnread (mark_conversationId req) (mark_userId req)
          (store (markAsRead ctx req st0))).
Proof.
  intros Hup Hnone. split; [|split; [|split]].
  - now rewrite (markAsRead_run _ _ _ Hup).
  - rewrite (markAsRead_run _ _ _ Hup). cbn [store].
    now apply nothingUnread_no_write.
  - rewrite (markAsRead_run _ _ _ Hup). cbn [emitted].
    now rewrite (nothingUnread_no_ids _ _ _ Hnone).
  - intros st0. rewrite (markAsRead_run _ _ _ Hup). cbn [store].
    apply nothingUnread_after_flip.
Qed.

Lemma reread_writes_nothing_but_notifies_witness :
  nothingUnread "u1_u2" "u2" (store (markAsRead (exampleCtx bothOnline) readRequest oneMessage))
  /\ emitted (markAsRead (exampleCtx bothOnline) readRequest
                (store (markAsRead (exampleCtx bothOnline) readRequest oneMessage)))
     = [{| target := ToRoom (Some "s1");
           event := messagesRead "u1_u2" (Some "u2") (Some []) |}].
Proof.
  assert (Hup : storeUp (exampleCtx bothOnline)) by (intros op; reflexivity).
  assert (Hnone : nothingUnread "u1_u2" "u2"
                    (store (markAsRead (exampleCtx bothOnline) readRequest oneMessage))).
  { rewrite (markAsRead_run _ _ _ Hup). cbn [store]. apply nothingUnread_after_flip. }
  split; [exact Hnone|].
  destruct (reread_writes_nothing_but_notifies (exampleCtx bothOnline) readRequest
              (store (markAsRead (exampleCtx bothOnline) readRequest oneMessage))
              Hup Hnone) as (_ & _ & Hemit & _).
  rewrite Hemit. vm_compute. reflexivity.
Defined.

Example markAsRead_first_call :
  emitted (markAsRead (exampleCtx bothOnline) readRequest oneMessage)
  = [{| target := ToRoom (Some "s1");
        event := messagesRead "u1_u2" (Some "u2") (Some [0]) |}].
Proof. vm_compute. reflexivity. Qed.

(** *** [deleteMessage] *)

(** The message controller does not bind [AppError]. *)
Lemma AppError_unbound :
  forall message status,
    new_AppError message_controller_imports message status = ReferenceError "AppError".
Proof. reflexivity. Qed.

(** A module that imports [AppError] raises the error it constructs. *)
Lemma AppError_bound scope message status :
  new_AppError ("AppError" :: scope) message status = AppError message status.
Proof.
  unfold new_AppError. rewrite bool_decide_eq_true_2; [reflexivity | constructor].
Qed.

(** A deletion asked by somebody else than the sender, or of a message that
    is not in the store, throws, leaving the store as it was and emitting
    nothing. What is thrown is the [ReferenceError] of the unbound [AppError]. *)
Lemma deleteMessage_rejected ctx req (st : Store) :
  storeFails ctx opFindById = false ->
  (st !! delete_messageId req = None
   \/ exists m, st !! delete_messageId req = Some m /\ sender m <> delete_userId req) ->
  deleteMessage ctx req st
  = {| outcome := Threw (ReferenceError "AppError"); store := st; emitted := [] |}.
Proof.
  intros Hfind Hcase. unfold deleteMessage, Message_findById.
  rewrite bind_unfold, storeCall_up by exact Hfind. cbn [outcome store emitted fst snd].
  destruct Hcase as [->|(m & -> & Hne)]; [reflexivity|].
  apply String.eqb_neq in Hne. rewrite Hne. reflexivity.
Qed.

(** A deletion asked by the sender removes the document and sends
    [messageDeleted], with the id only, to the handle of the recipient if the
    recipient has one. *)
Lemma deleteMessage_by_sender ctx req (st : Store) m :
  storeUp ctx ->
  st !! delete_messageId req = Some m ->
  sender m = delete_userId req ->
  deleteMessage ctx req st
  = {| outcome := Returned deletedResponse;
       store := delete (_id m) st;
       emitted :=
         if io ctx then
           match socketOf (live ctx) (Some (recipient m)) with
           | Some h =>
               [{| target := ToRoom (Some h);
                   event := messageDeleted (delete_messageId req) |}]
           | None => []
           end
         else [] |}.
Proof.
  intros Hup Hm Hsender. unfold deleteMessage, Message_findById, Message_deleteOne.
  rewrite bind_unfold, storeCall_up by apply Hup. cbn [outcome store emitted fst snd].
  rewrite Hm, Hsender, String.eqb_refl. cbn [negb].
  rewrite bind_unfold, storeCall_up by apply Hup. cbn [outcome store emitted fst snd].
  rewrite bind_unfold.
  destruct (io ctx); [|reflexivity].
  destruct (socketOf (live ctx) (Some (recipient m))); reflexivity.
Qed.

(** C7, on the code. The deletion of message 0 (from [u1] to [u2]) asked by
    [u2], and the deletion of the absent message 1, both leave the store
    untouched and emit nothing, but what they throw is
    [ReferenceError: AppError is not defined], neither the 403 nor the 404
    the handler constructs; the deletion asked by the sender [u1] succeeds
    and tells [u2]. *)
Theorem deleteMessage_rejections_throw_ReferenceError :
  deleteMessage (exampleCtx bothOnline) deleteByRecipient oneMessage
  = {| outcome := Threw (ReferenceError "AppError"); store := oneMessage; emitted := [] |}
  /\ deleteMessage (exampleCtx bothOnline) deleteMissing oneMessage
     = {| outcome := Threw (ReferenceError "AppError"); store := oneMessage; emitted := [] |}
  /\ new_AppError message_controller_imports "You can only delete your own messages" 403
     <> AppError "You can only delete your own messages" 403
  /\ new_AppError message_controller_imports "Message not found" 404
     <> AppError "Message not found" 404
  /\ deleteMessage (exampleCtx bothOnline) deleteBySender oneMessage
     = {| outcome := Returned deletedResponse; store := ∅;
          emitted := [{| target := ToRoom (Some "s2"); event := messageDeleted 0 |}] |}.
Proof.
  split; [|split; [|split; [|split]]].
  - apply deleteMessage_rejected; [reflexivity|].
    right. eexists. split; [reflexivity | discriminate].
  - apply deleteMessage_rejected; [reflexivity|]. now left.
  - rewrite AppError_unbound. discriminate.
  - rewrite AppError_unbound. discriminate.
  - erewrite deleteMessage_by_sender;
      [| intros op; reflexivity | reflexivity | reflexivity].
    f_equal; vm_compute; reflexivity.
Qed.

(** *** Where the REST paths send *)

Section EmitsOnly.

Variable P : Emit -> Prop.

Lemma emitsOnly_ret {A} (a : A) : emitsOnly P (mret a).
Proof. intros st. constructor. Qed.

Lemma emitsOnly_throw {A} e : emitsOnly P (@throw A e).
Proof. intros st. constructor. Qed.

Lemma emitsOnly_storeCall {A} ctx op (f : Store -> A * Store) :
  emitsOnly P (storeCall ctx op f).
Proof. intros st. rewrite storeCall_emits. constructor. Qed.

Lemma emitsOnly_emitTo room ev :
  P {| target := ToRoom (Some room); event := ev |} -> emitsOnly P (emitTo room ev).
Proof. intros HP st. cbn. now constructor. Qed.

Lemma emitsOnly_bind {A B} (c : M A) (k : A -> M B) :
  emitsOnly P c -> (forall a, emitsOnly P (k a)) -> emitsOnly P (c ≫= k).
Proof.
  intros Hc Hk st. rewrite bind_unfold. specialize (Hc st).
  destruct (outcome (c st)) as [a|e]; cbn [emitted]; [|exact Hc].
  apply Forall_app. split; [exact Hc | apply Hk].
Qed.

Lemma emitsOnly_tryCatch {A} (body : M A) (handler : Thrown -> M A) :
  emitsOnly P body -> (forall e, emitsOnly P (handler e)) ->
  emitsOnly P (tryCatch body handler).
Proof.
  intros Hb Hh st. unfold tryCatch. specialize (Hb st).
  destruct (outcome (body st)) as [a|e]; cbn [emitted]; [exact Hb|].
  apply Forall_app. split; [exact Hb | apply Hh].
Qed.

Lemma emitsOnly_notify ctx senderId recip text message :
  emitsOnly P (sendMessage_notify ctx senderId recip text message).
Proof.
  intros st.
  destruct (sendMessage_notify_pure ctx senderId recip text message st) as [_ ->].
  constructor.
Qed.

End EmitsOnly.

Lemma socketOf_registered s u h : socketOf s u = Some h -> onlineUsers s !! u = Some h.
Proof.
  unfold socketOf. destruct (onlineUsers s !! u) as [sid|]; [|discriminate].
  destruct (truthy (Some sid)); [|discriminate]. now intros [= ->].
Qed.

Lemma emitTo_registered s (addressee : Emit -> option JsStr) u h ev :
  socketOf s u = Some h ->
  addressee {| target := ToRoom (Some h); event := ev |} = Some u ->
  emitsOnly (fun e => exists u, addressee e = Some u /\ toRegisteredHandle s u e)
    (emitTo h ev).
Proof.
  intros Hh Hu. apply emitsOnly_emitTo. exists u. split; [exact Hu|].
  exists h. split; [reflexivity | now apply socketOf_registered].
Qed.

Lemma sendMessage_targets ctx req st :
  delivers (toRegisteredHandle (live ctx)) (sendMessage_addressee req)
    (sendMessage ctx req) st.
Proof.
  revert st.
  change (emitsOnly (fun e => exists u, sendMessage_addressee req e = Some u
                              /\ toRegisteredHandle (live ctx) u e)
            (sendMessage ctx req)).
  unfold sendMessage.
  apply emitsOnly_bind; [apply emitsOnly_storeCall | intros created].
  apply emitsOnly_bind; [apply emitsOnly_storeCall | intros _].
  apply emitsOnly_bind.
  { destruct (bool_decide _); [|apply emitsOnly_ret].
    apply emitsOnly_bind; [apply emitsOnly_storeCall | intros _; apply emitsOnly_ret]. }
  intros message.
  apply emitsOnly_bind.
  { unfold sendMessage_push.
    destruct (io ctx); [|apply emitsOnly_ret].
    destruct (socketOf (live ctx) (Some (send_recipient req))) as [rs|] eqn:Hrs;
      [|apply emitsOnly_ret].
    apply emitsOnly_bind;
      [apply (emitTo_registered _ _ _ _ _ Hrs); reflexivity | intros _].
    destruct (bool_decide _); [|apply emitsOnly_ret].
    destruct (socketOf (live ctx) (Some (send_userId req))) as [ss|] eqn:Hss;
      [|apply emitsOnly_ret].
    apply (emitTo_registered _ _ _ _ _ Hss); reflexivity. }
  intros _.
  apply emitsOnly_bind; [|intros _; apply emitsOnly_ret].
  apply emitsOnly_tryCatch; [apply emitsOnly_notify | intros _; apply emitsOnly_ret].
Qed.

Lemma deleteMessage_targets ctx req st :
  delivers (toRegisteredHandle (live ctx)) (deleteMessage_addressee st req)
    (deleteMessage ctx req) st.
Proof.
  unfold delivers, deleteMessage, Message_findById. rewrite bind_unfold.
  destruct (storeFails ctx opFindById) eqn:Hfind.
  { unfold storeCall. rewrite Hfind. constructor. }
  rewrite storeCall_up by exact Hfind. cbn [outcome store emitted fst snd app].
  destruct (st !! delete_messageId req) as [m|] eqn:Hm; [|constructor].
  destruct (negb _); [constructor|].
  unfold Message_deleteOne. rewrite bind_unfold.
  destruct (storeFails ctx opDeleteOne) eqn:Hdel.
  { unfold storeCall. rewrite Hdel. constructor. }
  rewrite storeCall_up by exact Hdel. cbn [outcome store emitted fst snd app].
  rewrite bind_unfold.
  destruct (io ctx); [|constructor].
  destruct (socketOf (live ctx) (Some (recipient m))) as [rs|] eqn:Hrs; [|constructor].
  cbn. constructor; [|constructor].
  exists (Some (recipient m)). split.
  - unfold deleteMessage_addressee. cbn. now rewrite Hm.
  - exists rs. split; [reflexivity | now apply socketOf_registered].
Qed.

Lemma markAsRead_targets ctx req st :
  delivers (toRegisteredHandle (live ctx)) (markAsRead_addressee req)
    (markAsRead ctx req) st.
Proof.
  revert st.
  change (emitsOnly (fun e => exists u, markAsRead_addressee req e = Some u
                              /\ toRegisteredHandle (live ctx) u e)
            (markAsRead ctx req)).
  unfold markAsRead.
  apply emitsOnly_bind; [apply emitsOnly_storeCall | intros messageIds].
  apply emitsOnly_bind; [|intros _; apply emitsOnly_ret].
  destruct (io ctx); [|apply emitsOnly_ret].
  destruct (socketOf (live ctx) _) as [h|] eqn:Hh; [|apply emitsOnly_ret].
  apply (emitTo_registered _ _ _ _ _ Hh); reflexivity.
Qed.

(** *** Who receives what the REST paths send *)

Lemma step_roomsOwn v s e :
  isConnectionEvent e -> roomsOwn s -> roomsOwn (after v s e).
Proof.
  unfold after. intros Hconn Hown.
  destruct e as [sid token| | | | | | |sid]; try contradiction; cbn [step].
  - unfold connect. destruct (authMiddleware v token) as [err|u]; [exact Hown|].
    cbn. intros sid' joined room. cbn.
    destruct (decide (sid = sid')) as [<-|Hne].
    + rewrite !lookup_insert_eq. intros [= <-] Hin.
      apply elem_of_union in Hin as [Hin|Hin]; apply elem_of_singleton in Hin; subst; auto.
    + rewrite !lookup_insert_ne by exact Hne. apply Hown.
  - unfold onLive. destruct (sockets s !! sid) as [uid|]; [|exact Hown].
    cbn. intros sid' joined room. cbn.
    destruct (decide (sid = sid')) as [<-|Hne].
    + rewrite lookup_delete_eq. discriminate.
    + rewrite !lookup_delete_ne by exact Hne. apply Hown.
Qed.

Lemma run_roomsOwn v trace : forall s,
  Forall isConnectionEvent trace -> roomsOwn s -> roomsOwn (run v s trace).1.
Proof.
  induction trace as [|e trace IH]; intros s Hconn Hown; [exact Hown|].
  rewrite run_cons. cbn [fst]. inversion Hconn; subst.
  apply IH; [assumption | now apply step_roomsOwn].
Qed.

Lemma step_socketsSatisfy v Q s e :
  (forall u, authenticatesAs v u e -> Q u) ->
  socketsSatisfy Q s -> socketsSatisfy Q (after v s e).
Proof.
  unfold after. intros HQ Hs.
  destruct e as [sid token|sid c|sid c|sid c r t|sid c|sid m|sid m r|sid]; cbn [step];
    try (unfold onLive; destruct (sockets s !! sid); exact Hs).
  - unfold connect. destruct (authMiddleware v token) as [err|u] eqn:Hauth; [exact Hs|].
    cbn. intros sid' u'. cbn.
    destruct (decide (sid = sid')) as [<-|Hne].
    + rewrite lookup_insert_eq. intros [= <-]. apply HQ. exact Hauth.
    + rewrite lookup_insert_ne by exact Hne. apply Hs.
  - unfold onLive. destruct (sockets s !! sid) as [uid|]; [|exact Hs].
    cbn. intros sid' u'. cbn. intros [_ H]%lookup_delete_Some. exact (Hs _ _ H).
Qed.

Lemma run_socketsSatisfy v Q trace : forall s,
  Forall (fun e => forall u, authenticatesAs v u e -> Q u) trace ->
  socketsSatisfy Q s -> socketsSatisfy Q (run v s trace).1.
Proof.
  induction trace as [|e trace IH]; intros s HQ Hs; [exact Hs|].
  rewrite run_cons. cbn [fst]. inversion HQ; subst.
  apply IH; [assumption | now apply step_socketsSatisfy].
Qed.

(** After handshakes and disconnections only, the room named after the
    handle the registry holds for an identity has no member but the socket
    with that id. *)
Lemma registered_handle_audience v trace u h :
  Forall isConnectionEvent trace ->
  identitiesAreNotSocketIds v trace ->
  onlineUsers (run v initial_server trace).1 !! u = Some h ->
  audience (run v initial_server trace).1 (ToRoom (Some h)) ⊆ {[h]}.
Proof.
  intros Hconn Hids Hreg sid Hsid. apply elem_of_singleton.
  cbn [audience] in Hsid. apply elem_of_dom in Hsid as [joined Hjoined].
  apply map_lookup_filter_Some in Hjoined as [Hjoined Hin]. cbn in Hin.
  assert (Hown : roomsOwn (run v initial_server trace).1).
  { apply run_roomsOwn; [exact Hconn|].
    intros sid' joined' room' H. cbn in H. rewrite lookup_empty in H. discriminate. }
  destruct (Hown _ _ _ Hjoined Hin) as [[= ->]|Huser]; [reflexivity|].
  exfalso.
  assert (Hsat : socketsSatisfy (notASocketIdOf trace) (run v initial_server trace).1).
  { apply run_socketsSatisfy; [exact Hids|].
    intros sid' u' H. cbn in H. rewrite lookup_empty in H. discriminate. }
  destruct (run_onlineUsers _ _ _ _ _ Hreg)
    as [[Hinit _]|(pre & token & post & Htrace & _ & _)].
  - cbn in Hinit. rewrite lookup_empty in Hinit. discriminate.
  - apply (Hsat _ _ Huser h token); [|reflexivity].
    rewrite Htrace. apply in_or_app. right. now left.
Qed.

Lemma toRegisteredHandle_reaches v trace u e :
  Forall isConnectionEvent trace ->
  identitiesAreNotSocketIds v trace ->
  toRegisteredHandle (run v initial_server trace).1 u e ->
  reachesOnlyRegistered (run v initial_server trace).1 u e.
Proof.
  intros Hconn Hids (h & Htarget & Hreg). exists h. split; [exact Hreg|].
  rewrite Htarget. now apply (registered_handle_audience v trace u h).
Qed.

Lemma delivers_reaches {A} v trace addressee (c : M A) st :
  Forall isConnectionEvent trace ->
  identitiesAreNotSocketIds v trace ->
  delivers (toRegisteredHandle (run v initial_server trace).1) addressee c st ->
  delivers (reachesOnlyRegistered (run v initial_server trace).1) addressee c st.
Proof.
  intros Hconn Hids Hto. unfold delivers in *. eapply Forall_impl; [exact Hto|].
  clear Hto. intros e (u & Hu & Hto). exists u. split; [exact Hu|].
  now apply (toRegisteredHandle_reaches v trace).
Qed.

(** C10. After any sequence of socket events on a fresh server, the presence
    registry holds for each identity at most one handle; a handle it holds
    for an identity is the socket id of the last handshake of the trace that
    authenticated that identity; one more authenticated handshake overwrites
    it; and every event the REST paths emit is a delivery meant for one
    identity, addressed to the one handle the registry holds for that very
    identity: for [sendMessage], the [newMessage] to the handle of the
    recipient of the request and the [messagesRead] to the handle of its
    sender; for [deleteMessage], the [messageDeleted] to the handle of the
    recipient of the message stored under the id; for [markAsRead], the
    [messagesRead] to the handle of the participant other than the reader.
    When the events are handshakes and disconnections and no identity is a
    socket id, such an event reaches no connection but the one with that
    handle. *)
Theorem registry_holds_one_latest_handle
    (v : string -> option JwtPayload) (trace : list SocketEvent) :
  (forall u h h',
     onlineUsers (run v initial_server trace).1 !! u = Some h ->
     onlineUsers (run v initial_server trace).1 !! u = Some h' -> h = h')
  /\ (forall u h,
        onlineUsers (run v initial_server trace).1 !! u = Some h ->
        exists pre token post,
          trace = pre ++ Handshake h token :: post
          /\ authMiddleware v token = inr u
          /\ Forall (fun e => ~ authenticatesAs v u e) post)
  /\ (forall sid token u,
        authMiddleware v token = inr u ->
        onlineUsers (after v (run v initial_server trace).1 (Handshake sid token)) !! u
        = Some sid)
  /\ (forall ctx,
        live ctx = (run v initial_server trace).1 ->
        (forall req st,
           delivers (toRegisteredHandle (run v initial_server trace).1)
             (sendMessage_addressee req) (sendMessage ctx req) st)
        /\ (forall req st,
              delivers (toRegisteredHandle (run v initial_server trace).1)
                (deleteMessage_addressee st req) (deleteMessage ctx req) st)
        /\ (forall req st,
              delivers (toRegisteredHandle (run v initial_server trace).1)
                (markAsRead_addressee req) (markAsRead ctx req) st))
  /\ (Forall isConnectionEvent trace ->
      identitiesAreNotSocketIds v trace ->
      forall ctx,
        live ctx = (run v initial_server trace).1 ->
        (forall req st,
           delivers (reachesOnlyRegistered (run v initial_server trace).1)
             (sendMessage_addressee req) (sendMessage ctx req) st)
        /\ (forall req st,
              delivers (reachesOnlyRegistered (run v initial_server trace).1)
                (deleteMessage_addressee st req) (deleteMessage ctx req) st)
        /\ (forall req st,
              delivers (reachesOnlyRegistered (run v initial_server trace).1)
                (markAsRead_addressee req) (markAsRead ctx req) st)).
Proof.
  split; [|split; [|split; [|split]]].
  - intros u h h' H1 H2. congruence.
  - intros u h H.
    destruct (run_onlineUsers _ _ _ _ _ H) as [[Hinit _]|Hlast]; [|exact Hlast].
    cbn in Hinit. rewrite lookup_empty in Hinit. discriminate.
  - intros sid token u Hauth. now apply handshake_overwrites.
  - intros ctx <-. repeat split; intros req st.
    + apply sendMessage_targets.
    + apply deleteMessage_targets.
    + apply markAsRead_targets.
  - intros Hconn Hids ctx Hlive.
    repeat split; intros req st; apply (delivers_reaches v trace _ _ _ Hconn Hids);
      rewrite <- Hlive.
    + apply sendMessage_targets.
    + apply deleteMessage_targets.
    + apply markAsRead_targets.
Qed.

Lemma registry_holds_one_latest_handle_witness :
  (onlineUsers twoTabs !! Some "u1" = Some "s2"
   /\ exists pre token post,
        [Handshake "s1" (Some "u1"); Handshake "s2" (Some "u1");
         JoinConversation "s2" "u1_u2"]
        = pre ++ Handshake "s2" token :: post
        /\ authMiddleware exampleVerifier token = inr (Some "u1")
        /\ Forall (fun e => ~ authenticatesAs exampleVerifier (Some "u1") e) post)
  /\ emitted (sendMessage (exampleCtx bothOnline) hiRequest ∅) <> []
  /\ delivers (reachesOnlyRegistered bothOnline) (sendMessage_addressee hiRequest)
       (sendMessage (exampleCtx bothOnline) hiRequest) ∅
  /\ emitted (deleteMessage (exampleCtx bothOnline) deleteBySender oneMessage) <> []
  /\ delivers (reachesOnlyRegistered bothOnline)
       (deleteMessage_addressee oneMessage deleteBySender)
       (deleteMessage (exampleCtx bothOnline) deleteBySender) oneMessage.
Proof.
  split.
  - assert (H : onlineUsers twoTabs !! Some "u1" = Some "s2") by (vm_compute; reflexivity).
    split; [exact H|].
    destruct (registry_holds_one_latest_handle exampleVerifier
                [Handshake "s1" (Some "u1"); Handshake "s2" (Some "u1");
                 JoinConversation "s2" "u1_u2"]) as (_ & Hlast & _).
    exact (Hlast (Some "u1") "s2" H).
  - destruct (registry_holds_one_latest_handle exampleVerifier
                [Handshake "s1" (Some "u1"); Handshake "s2" (Some "u2")])
      as (_ & _ & _ & _ & Hreach).
    destruct (Hreach ltac:(repeat constructor)) with (ctx := exampleCtx bothOnline)
      as (Hsend & Hdelete & _); [|reflexivity|].
    { repeat constructor; intros u Hu; cbn in Hu; injection Hu as <-;
        intros sid token [[= <- <-]|[[= <- <-]|[]]]; discriminate. }
    split; [vm_compute; discriminate|]. split; [apply Hsend|].
    split; [vm_compute; discriminate | apply Hdelete].
Defined.

(** * More of the code *)

(** ** Conversation identifiers, continued *)

Lemma js_join_split s : js_join "_" (js_split SEP s) = s.
Proof.
  unfold js_join. induction s as [|c r IH]; [reflexivity|].
  cbn [js_split]. destruct (Ascii.eqb_spec c SEP) as [->|Hne].
  - change (String.concat "_" (EmptyString :: js_split SEP r))
      with (match js_split SEP r with
            | [] => EmptyString
            | _ :: _ => EmptyString +:+ "_" +:+ String.concat "_" (js_split SEP r)
            end).
    destruct (js_split SEP r) eqn:E; [now destruct (js_split_nonempty SEP r)|].
    rewrite IH. reflexivity.
  - destruct (js_split SEP r) as [|p ps] eqn:E; [now destruct (js_split_nonempty SEP r)|].
    rewrite <- IH. cbn. destruct ps; reflexivity.
Qed.

Lemma js_sort_pair_cases a b :
  js_sort [a; b] = [a; b] \/ js_sort [a; b] = [b; a].
Proof. rewrite js_sort_pair. destruct (String.leb a b); auto. Qed.

Lemma conversationId_split a b :
  separatorFree a -> separatorFree b ->
  js_split SEP (conversationId a b) = js_sort [a; b].
Proof.
  intros Ha Hb. unfold conversationId.
  destruct (js_sort_pair_cases a b) as [->| ->]; now apply js_split_pair.
Qed.

(** X1. The identifier of a conversation decodes to its participants: for
    identities without separator, splitting [conversationId a b] at the
    separator gives the two identities in sorted order, and joining the pieces
    of any string split at the separator gives the string back. *)
Theorem conversationId_decodes (a b : string) :
  (separatorFree a -> separatorFree b ->
   js_split SEP (conversationId a b) = js_sort [a; b])
  /\ (forall s, js_join "_" (js_split SEP s) = s).
Proof. split; [apply conversationId_split | apply js_join_split]. Qed.

Lemma conversationId_decodes_witness :
  js_split SEP (conversationId "64b2" "64a1") = ["64a1"; "64b2"].
Proof.
  destruct (conversationId_decodes "64b2" "64a1") as [H _].
  rewrite H by reflexivity. reflexivity.
Defined.

(** X2. Two pairs of identities without separator have the same conversation
    identifier only if they are the same pair, in either order. *)
Theorem conversationId_injective (a b c d : string) :
  separatorFree a -> separatorFree b -> separatorFree c -> separatorFree d ->
  conversationId a b = conversationId c d ->
  (a = c /\ b = d) \/ (a = d /\ b = c).
Proof.
  intros Ha Hb Hc Hd Heq.
  assert (Hsplit : js_sort [a; b] = js_sort [c; d]).
  { rewrite <- (conversationId_split a b), <- (conversationId_split c d) by assumption.
    now rewrite Heq. }
  destruct (js_sort_pair_cases a b) as [Hab|Hab],
           (js_sort_pair_cases c d) as [Hcd|Hcd];
    rewrite Hab, Hcd in Hsplit; injection Hsplit as -> ->; auto.
Qed.

Lemma conversationId_injective_witness :
  conversationId "64a1" "64b2" = conversationId "64b2" "64a1"
  /\ (("64a1" = "64b2" /\ "64b2" = "64a1") \/ ("64a1" = "64a1" /\ "64b2" = "64b2")).
Proof.
  split; [reflexivity|].
  apply (conversationId_injective "64a1" "64b2" "64b2" "64a1"); reflexivity.
Defined.

(** ** The live layer, continued *)

(** X3. The socket [markAsRead] handler does not check that the reader is a
    participant: for a conversation identifier of two identities without
    separator and a socket of any other identity, it changes nothing in the
    server and emits one [messagesRead], naming that socket's identity as
    reader, to the room of the first of the two identities in sorted order. *)
Theorem markAsRead_by_outsider
    (v : string -> option JwtPayload) (s : Server) (sid : string) (reader : JsStr)
    (a b : string) :
  separatorFree a -> separatorFree b ->
  sockets s !! sid = Some reader ->
  reader <> Some a -> reader <> Some b ->
  exists first second,
    js_sort [a; b] = [first; second]
    /\ step v s (MarkAsRead sid (conversationId a b))
       = (s, [{| target := ToRoom (Some first);
                 event := messagesRead (conversationId a b) reader None |}]).
Proof.
  intros Ha Hb Hlive Hna Hnb.
  cbn [step]. unfold onLive. rewrite Hlive. unfold onMarkAsRead. cbn [socket_userId].
  unfold otherUserId. rewrite (conversationId_split _ _ Ha Hb).
  destruct (js_sort_pair_cases a b) as [E|E]; rewrite E; cbn [nth_error].
  - exists a, b. split; [reflexivity|]. now rewrite decide_False by congruence.
  - exists b, a. split; [reflexivity|]. now rewrite decide_False by congruence.
Qed.

Lemma markAsRead_by_outsider_witness :
  step exampleVerifier bothOnline (MarkAsRead "s2" (conversationId "u1" "u3"))
  = (bothOnline,
     [{| target := ToRoom (Some "u1");
         event := messagesRead "u1_u3" (Some "u2") None |}]).
Proof.
  destruct (markAsRead_by_outsider exampleVerifier bothOnline "s2" (Some "u2") "u1" "u3"
              eq_refl eq_refl eq_refl ltac:(discriminate) ltac:(discriminate))
    as (first & second & Hsort & Hstep).
  injection Hsort as <- <-. exact Hstep.
Defined.

Lemma handshakeIds_cons_other e trace :
  (forall sid token, e <> Handshake sid token) ->
  handshakeIds (e :: trace) = handshakeIds trace.
Proof. intros H. destruct e; try reflexivity. now destruct (H socketId token). Qed.

(** One event keeps the two liveness invariants, provided a handshake comes
    with an id that no live socket has. *)
Lemma step_keeps_liveness v s e :
  (forall sid token, e = Handshake sid token -> sockets s !! sid = None) ->
  registryLive s /\ focusLive s ->
  registryLive (after v s e) /\ focusLive (after v s e).
Proof.
  unfold after, registryLive, focusLive, focusOf. intros Hfresh [Hreg Hfoc].
  destruct e as [sid token|sid c0|sid c0|sid c0 r t|sid c0|sid m|sid m r|sid]; cbn [step];
    try (unfold onLive; destruct (sockets s !! sid) as [uid|]; cbn; now split).
  - specialize (Hfresh sid token eq_refl).
    unfold connect. destruct (authMiddleware v token) as [err|u0]; cbn; [now split|].
    split.
    + intros u h. destruct (decide (u0 = u)) as [->|Hne].
      * rewrite lookup_insert_eq. intros [= <-]. apply lookup_insert_eq.
      * rewrite lookup_insert_ne by exact Hne. intros H.
        pose proof (Hreg _ _ H) as Hh.
        rewrite lookup_insert_ne; [exact Hh | congruence].
    + intros u c H. destruct (Hfoc _ _ H) as [sid' Hsid']. exists sid'.
      rewrite lookup_insert_ne; [exact Hsid' | congruence].
  - unfold onLive. destruct (sockets s !! sid) as [uid|] eqn:Hlive; cbn; [|now split].
    split; [exact Hreg|].
    intros u c. destruct (decide (uid = u)) as [->|Hne].
    + intros _. eauto.
    + rewrite lookup_insert_ne by exact Hne. apply Hfoc.
  - unfold onLive. destruct (sockets s !! sid) as [uid|] eqn:Hlive; cbn; [|now split].
    split; [exact Hreg|].
    intros u c [_ H]%lookup_delete_Some. exact (Hfoc _ _ H).
  - unfold onLive. destruct (sockets s !! sid) as [uid|] eqn:Hlive; cbn; [|now split].
    split.
    + intros u h [Hne H]%lookup_delete_Some. pose proof (Hreg _ _ H) as Hh.
      rewrite lookup_delete_ne; [exact Hh | congruence].
    + intros u c [Hne H]%lookup_delete_Some. destruct (Hfoc _ _ H) as [sid' Hsid'].
      exists sid'. rewrite lookup_delete_ne; [exact Hsid' | congruence].
Qed.

(** A socket is live after an event only if it was live before or if the
    event is its handshake. *)
Lemma step_sockets_None v s e sid :
  sockets s !! sid = None ->
  (forall token, e <> Handshake sid token) ->
  sockets (after v s e) !! sid = None.
Proof.
  unfold after. intros Hnone Hne.
  destruct e as [sid0 token|sid0 c|sid0 c|sid0 c r t|sid0 c|sid0 m|sid0 m r|sid0];
    cbn [step];
    try (unfold onLive; destruct (sockets s !! sid0) as [uid|]; cbn; exact Hnone).
  - unfold connect. destruct (authMiddleware v token) as [err|u0]; cbn; [exact Hnone|].
    rewrite lookup_insert_ne; [exact Hnone|]. intros ->. now apply (Hne token).
  - unfold onLive. destruct (sockets s !! sid0) as [uid|]; cbn; [|exact Hnone].
    apply lookup_delete_None. now right.
Qed.

Lemma run_keeps_liveness v trace : forall s,
  NoDup (handshakeIds trace) ->
  (forall sid, In sid (handshakeIds trace) -> sockets s !! sid = None) ->
  registryLive s /\ focusLive s ->
  registryLive (run v s trace).1 /\ focusLive (run v s trace).1.
Proof.
  induction trace as [|e trace IH]; intros s Hnodup Hfresh Hinv; [exact Hinv|].
  rewrite run_cons. cbn [fst]. apply IH.
  - destruct e; cbn [handshakeIds] in Hnodup; try exact Hnodup.
    now apply NoDup_cons in Hnodup as [_ Hnodup].
  - intros sid Hin. apply step_sockets_None.
    + apply Hfresh. destruct e; cbn [handshakeIds]; try exact Hin. now right.
    + intros token ->. cbn [handshakeIds] in Hnodup.
      apply NoDup_cons in Hnodup as [Hnotin _]. apply Hnotin.
      now apply list_elem_of_In.
  - apply step_keeps_liveness; [|exact Hinv].
    intros sid token ->. apply Hfresh. now left.
Qed.

(** X4. When the handshakes of a trace come with distinct socket ids, after
    the trace the handle the presence registry holds for an identity is a
    live socket of that identity, and an identity that has a focus has a live
    socket. *)
Theorem registry_and_focus_point_to_live_sockets
    (v : string -> option JwtPayload) (trace : list SocketEvent) :
  NoDup (handshakeIds trace) ->
  registryLive (run v initial_server trace).1
  /\ focusLive (run v initial_server trace).1.
Proof.
  intros Hnodup. apply run_keeps_liveness; [exact Hnodup | reflexivity |].
  split.
  - intros u h H. cbn in H. rewrite lookup_empty in H. discriminate.
  - intros u c H. unfold focusOf in H. cbn in H. rewrite lookup_empty in H. discriminate.
Qed.

Lemma registry_and_focus_point_to_live_sockets_witness :
  sockets focusedButUnregistered !! "s3" = Some (Some "u1")
  /\ exists sid, sockets focusedButUnregistered !! sid = Some (Some "u2").
Proof.
  destruct (registry_and_focus_point_to_live_sockets exampleVerifier
              [Handshake "s1" (Some "u2"); Handshake "s2" (Some "u2");
               Handshake "s3" (Some "u1"); Disconnect "s1";
               JoinConversation "s2" "u1_u2"]) as [Hreg Hfoc].
  { cbn. repeat constructor; rewrite ?list_elem_of_In; cbn; intuition discriminate. }
  split.
  - apply (Hreg (Some "u1") "s3"). vm_compute. reflexivity.
  - apply (Hfoc (Some "u2") "u1_u2"). vm_compute. reflexivity.
Defined.

Lemma lastBroadcast_app out1 out2 :
  lastBroadcast (out1 ++ out2)
  = match lastBroadcast out2 with
    | Some ids => Some ids
    | None => lastBroadcast out1
    end.
Proof.
  induction out1 as [|e out1 IH]; cbn [app lastBroadcast].
  - now destruct (lastBroadcast out2).
  - rewrite IH. destruct (lastBroadcast out2); reflexivity.
Qed.

(** What one event broadcasts is the set of online identities it leaves; an
    event that broadcasts nothing leaves the registry as it was. *)
Lemma step_lastBroadcast v s e :
  match lastBroadcast (step v s e).2 with
  | Some ids => ids = dom (onlineUsers (after v s e))
  | None => onlineUsers (after v s e) = onlineUsers s
  end.
Proof.
  unfold after.
  destruct e as [sid token|sid c|sid c|sid c r t|sid c|sid m|sid m r|sid]; cbn [step];
    try (unfold onLive; destruct (sockets s !! sid) as [uid|]; reflexivity).
  unfold connect. destruct (authMiddleware v token) as [err|u0]; reflexivity.
Qed.

Lemma run_lastBroadcast v trace : forall s,
  match lastBroadcast (run v s trace).2 with
  | Some ids => ids = dom (onlineUsers (run v s trace).1)
  | None => onlineUsers (run v s trace).1 = onlineUsers s
  end.
Proof.
  induction trace as [|e trace IH]; intros s; [reflexivity|].
  rewrite run_cons. cbn [fst snd]. rewrite lastBroadcast_app.
  specialize (IH (after v s e)).
  destruct (lastBroadcast (run v (after v s e) trace).2) as [ids|]; [exact IH|].
  rewrite IH. apply step_lastBroadcast.
Qed.

(** X5. After any trace of socket events, what [getOnlineUsers] answers is
    the payload of the last [onlineUsers] broadcast of the trace; when the
    trace has broadcast nothing, it answers the empty set. The handler
    answers 200, emits nothing and leaves the store. *)
Theorem getOnlineUsers_is_last_broadcast
    (v : string -> option JwtPayload) (trace : list SocketEvent) (ctx : Ctx)
    (st : Store) :
  live ctx = (run v initial_server trace).1 ->
  exists r,
    getOnlineUsers ctx st = {| outcome := Returned r; store := st; emitted := [] |}
    /\ online_statusCode r = 200
    /\ online_onlineUsers r
       = default ∅ (lastBroadcast (run v initial_server trace).2)
    /\ (forall u, u ∈ online_onlineUsers r <-> isOnline (live ctx) u = true).
Proof.
  intros Hlive. eexists. split; [reflexivity|]. cbn. split; [reflexivity|]. split.
  - rewrite Hlive. pose proof (run_lastBroadcast v trace initial_server) as H.
    destruct (lastBroadcast (run v initial_server trace).2) as [ids|]; cbn.
    + now rewrite H.
    + rewrite H. cbn. apply dom_empty_L.
  - intros u. unfold isOnline. rewrite bool_decide_eq_true. apply elem_of_dom.
Qed.

Lemma getOnlineUsers_is_last_broadcast_witness :
  exists r,
    getOnlineUsers (exampleCtx bothOnline) ∅
    = {| outcome := Returned r; store := ∅; emitted := [] |}
    /\ online_onlineUsers r
       = default ∅ (lastBroadcast
                      (run exampleVerifier initial_server
                         [Handshake "s1" (Some "u1"); Handshake "s2" (Some "u2")]).2).
Proof.
  destruct (getOnlineUsers_is_last_broadcast exampleVerifier
              [Handshake "s1" (Some "u1"); Handshake "s2" (Some "u2")]
              (exampleCtx bothOnline) ∅ eq_refl) as (r & Hrun & _ & Hlast & _).
  exists r. split; assumption.
Defined.

(** A relay event leaves the server as it is. *)
Lemma relay_keeps_state v s e : isRelay e = true -> after v s e = s.
Proof.
  unfold after.
  destruct e as [sid token|sid c|sid c|sid c r t|sid c|sid m|sid m r|sid];
    try discriminate; intros _; cbn [step]; unfold onLive;
    destruct (sockets s !! sid); reflexivity.
Qed.

(** X6. The relay events ([typing], [markAsRead], [sendMessage],
    [deleteMessage]) never change the server: the state after a trace is the
    state after the trace without its relay events, from any state. *)
Theorem relays_never_change_server
    (v : string -> option JwtPayload) (trace : list SocketEvent) (s : Server) :
  (run v s trace).1
  = (run v s (List.filter (fun e => negb (isRelay e)) trace)).1.
Proof.
  revert s. induction trace as [|e trace IH]; intros s; [reflexivity|].
  cbn [List.filter]. destruct (isRelay e) eqn:Hrelay; cbn [negb].
  - rewrite run_cons. cbn [fst]. rewrite (relay_keeps_state _ _ _ Hrelay). apply IH.
  - rewrite !run_cons. cbn [fst]. apply IH.
Qed.

(** *** Rooms *)

Lemma step_roomsKept v s e : notLeave e -> roomsKept s -> roomsKept (after v s e).
Proof.
  unfold after, roomsKept. intros Hnl Hkept.
  destruct e as [sid token|sid c0| |sid c0 r t|sid c0|sid m|sid m r|sid];
    try contradiction; cbn [step];
    try (unfold onLive; destruct (sockets s !! sid) as [uid|]; exact Hkept).
  - unfold connect. destruct (authMiddleware v token) as [err|u0]; cbn; [exact Hkept|].
    intros sid' u. destruct (decide (sid = sid')) as [<-|Hne].
    + rewrite !lookup_insert_eq. intros [= <-]. eexists. split; [reflexivity|].
      split; set_solver.
    + rewrite !lookup_insert_ne by exact Hne. apply Hkept.
  - unfold onLive. destruct (sockets s !! sid) as [uid|]; cbn; [|exact Hkept].
    intros sid' u H. destruct (Hkept _ _ H) as (joined & Hj & Hid & Hu).
    destruct (decide (sid = sid')) as [<-|Hne].
    + rewrite lookup_alter_eq, Hj. eexists. split; [reflexivity|]. split; set_solver.
    + rewrite lookup_alter_ne by exact Hne. eauto.
  - unfold onLive. destruct (sockets s !! sid) as [uid|]; cbn; [|exact Hkept].
    intros sid' u [Hne H]%lookup_delete_Some.
    rewrite lookup_delete_ne by exact Hne. now apply Hkept.
Qed.

Lemma run_roomsKept v trace : forall s,
  Forall notLeave trace -> roomsKept s -> roomsKept (run v s trace).1.
Proof.
  induction trace as [|e trace IH]; intros s Hnl Hkept; [exact Hkept|].
  rewrite run_cons. cbn [fst]. inversion Hnl; subst.
  apply IH; [assumption | now apply step_roomsKept].
Qed.

Lemma roomsKept_audience s sid r :
  roomsKept s -> sockets s !! sid = Some r -> sid ∈ audience s (ToRoom r).
Proof.
  intros Hkept Hlive. destruct (Hkept _ _ Hlive) as (joined & Hj & _ & Hr).
  cbn [audience]. apply elem_of_dom. exists joined.
  apply map_lookup_filter_Some. split; [exact Hj | exact Hr].
Qed.

(** X7. After a trace without [leaveConversation] events, what a live socket
    relays to an identity reaches every live connection of that identity:
    the [userTyping] of a [typing] event, the [newMessage] of a socket
    [sendMessage] and the [messageDeleted] of a socket [deleteMessage] are
    each emitted once, to the room of the recipient, in which every live
    socket of the recipient is. *)
Theorem relays_reach_every_connection
    (v : string -> option JwtPayload) (trace : list SocketEvent)
    (from : string) (me recipientId : JsStr) :
  Forall notLeave trace ->
  sockets (run v initial_server trace).1 !! from = Some me ->
  (forall sid, sockets (run v initial_server trace).1 !! sid = Some recipientId ->
     sid ∈ audience (run v initial_server trace).1 (ToRoom recipientId))
  /\ (forall c t,
        (step v (run v initial_server trace).1 (Typing from c recipientId t)).2
        = [{| target := ToRoom recipientId; event := userTyping c me t |}])
  /\ (forall body,
        (step v (run v initial_server trace).1
           (SendMessage from {| relayed_recipient := recipientId;
                                relayed_body := body |})).2
        = [{| target := ToRoom recipientId;
              event := newMessageRelayed {| relayed_recipient := recipientId;
                                            relayed_body := body |} |};
           {| target := ToSocket from;
              event := messageSent {| relayed_recipient := recipientId;
                                      relayed_body := body |} |}])
  /\ (forall messageId,
        (step v (run v initial_server trace).1
           (DeleteMessage from messageId recipientId)).2
        = [{| target := ToRoom recipientId; event := messageDeleted messageId |}]).
Proof.
  intros Hnl Hfrom. split; [|repeat split; intros; cbn [step]; unfold onLive;
                             now rewrite Hfrom].
  intros sid Hsid. apply roomsKept_audience; [|exact Hsid].
  apply run_roomsKept; [exact Hnl|].
  intros sid' u H. cbn in H. rewrite lookup_empty in H. discriminate.
Qed.

Lemma relays_reach_every_connection_witness :
  "s1" ∈ audience twoTabs (ToRoom (Some "u1"))
  /\ "s2" ∈ audience twoTabs (ToRoom (Some "u1")).
Proof.
  destruct (relays_reach_every_connection exampleVerifier
              [Handshake "s1" (Some "u1"); Handshake "s2" (Some "u1");
               JoinConversation "s2" "u1_u2"] "s2" (Some "u1") (Some "u1"))
    as [Hreach _].
  { repeat constructor. }
  { vm_compute. reflexivity. }
  split; apply Hreach; vm_compute; reflexivity.
Defined.

(** X8. [leaveConversation] leaves whatever room it names: a socket that
    sends it with its own identity as conversation is no longer in the room
    of its identity, so that what is emitted to that room no longer reaches
    it, while the presence registry and the table of live sockets are as
    before. *)
Theorem leave_can_quit_identity_room
    (v : string -> option JwtPayload) (s : Server) (sid u : string) :
  sockets s !! sid = Some (Some u) ->
  (sid ∉ audience (after v s (LeaveConversation sid u)) (ToRoom (Some u)))
  /\ onlineUsers (after v s (LeaveConversation sid u)) = onlineUsers s
  /\ sockets (after v s (LeaveConversation sid u)) = sockets s.
Proof.
  intros Hlive. unfold after. rewrite (step_leave _ _ _ _ _ Hlive). cbn.
  split; [|split; reflexivity].
  intros Hin. apply elem_of_dom in Hin as [joined Hj].
  apply map_lookup_filter_Some in Hj as [Hj Hmem].
  rewrite lookup_alter_eq in Hj.
  destruct (rooms s !! sid) as [joined0|]; [|discriminate].
  injection Hj as <-. cbn in Hmem.
  apply elem_of_difference in Hmem as [_ Hn]. apply Hn. now apply elem_of_singleton.
Qed.

Lemma leave_can_quit_identity_room_witness :
  "s1" ∈ audience bothOnline (ToRoom (Some "u1"))
  /\ ("s1" ∉ audience (after exampleVerifier bothOnline (LeaveConversation "s1" "u1"))
               (ToRoom (Some "u1")))
  /\ isOnline (after exampleVerifier bothOnline (LeaveConversation "s1" "u1"))
       (Some "u1") = true.
Proof.
  destruct (leave_can_quit_identity_room exampleVerifier bothOnline "s1" "u1")
    as (Hout & Hreg & _).
  { vm_compute. reflexivity. }
  split; [|split; [exact Hout|]].
  - apply elem_of_dom. eexists. apply map_lookup_filter_Some.
    split; [vm_compute; reflexivity | vm_compute; set_solver].
  - unfold isOnline. rewrite Hreg. vm_compute. reflexivity.
Defined.

(** *** The handshake *)

(** X9. A token that verifies always connects, whatever claims it carries:
    the identity of the socket is the [userId] claim when truthy, else the
    [id] claim when truthy, else the [_id] claim as it is; in particular a
    verified token without any identity claim connects with the identity
    [undefined], which is then registered and broadcast as online. *)
Theorem verified_token_always_connects
    (v : string -> option JwtPayload) (s : Server) (sid : string) (token : JsStr)
    (decoded : JwtPayload) :
  jwt_verify v token = Some decoded ->
  exists u,
    connect v sid token s
    = (Connected {| socket_id := sid; socket_userId := u |},
       (onConnection {| socket_id := sid; socket_userId := u |} s).1,
       [broadcastOnlineUsers (onConnection {| socket_id := sid; socket_userId := u |} s).1])
    /\ onlineUsers (after v s (Handshake sid token)) !! u = Some sid
    /\ u ∈ dom (onlineUsers (after v s (Handshake sid token)))
    /\ (truthy (claim_userId decoded) = true -> u = claim_userId decoded)
    /\ (truthy (claim_userId decoded) = false -> truthy (claim_id decoded) = true ->
        u = claim_id decoded)
    /\ (truthy (claim_userId decoded) = false -> truthy (claim_id decoded) = false ->
        u = claim__id decoded).
Proof.
  intros Hverify.
  assert (Hauth : authMiddleware v token
                  = inr (js_or (js_or (claim_userId decoded) (claim_id decoded))
                           (claim__id decoded)))
    by (unfold authMiddleware; now rewrite Hverify).
  eexists. split; [now rewrite (connect_accepted _ _ _ _ _ Hauth)|].
  split; [now apply handshake_overwrites|].
  split; [apply elem_of_dom; rewrite (handshake_overwrites _ _ _ _ _ Hauth); eauto|].
  unfold js_or. repeat split.
  - intros H. rewrite H. cbn. now rewrite H.
  - intros H1 H2. rewrite H1. cbn. now rewrite H2.
  - intros H1 H2. rewrite H1. cbn. now rewrite H2.
Qed.

Lemma verified_token_always_connects_witness :
  exists u,
    onlineUsers (after (fun _ => Some {| claim_userId := None; claim_id := None;
                                         claim__id := None |})
                   initial_server (Handshake "s1" (Some "anything"))) !! u = Some "s1"
    /\ u = None.
Proof.
  destruct (verified_token_always_connects
              (fun _ => Some {| claim_userId := None; claim_id := None; claim__id := None |})
              initial_server "s1" (Some "anything")
              {| claim_userId := None; claim_id := None; claim__id := None |} eq_refl)
    as (u & _ & Hreg & _ & _ & _ & Hnone).
  exists u. split; [exact Hreg|]. now apply Hnone.
Defined.

(** ** The REST paths, continued *)

Lemma storeCall_down {A} ctx op (f : Store -> A * Store) st :
  storeFails ctx op = true ->
  storeCall ctx op f st
  = {| outcome := Threw (StoreError op); store := st; emitted := [] |}.
Proof. intros H. unfold storeCall. now rewrite H. Qed.

Section Quiet.

Lemma silent_ret {A} (a : A) : silent (mret a).
Proof. intros st. reflexivity. Qed.

Lemma silent_throw {A} e : silent (@throw A e).
Proof. intros st. reflexivity. Qed.

Lemma silent_storeCall {A} ctx op (f : Store -> A * Store) : silent (storeCall ctx op f).
Proof. intros st. apply storeCall_emits. Qed.

Lemma silent_bind {A B} (c : M A) (k : A -> M B) :
  silent c -> (forall a, silent (k a)) -> silent (c ≫= k).
Proof.
  intros Hc Hk st. rewrite bind_unfold.
  destruct (outcome (c st)); cbn [emitted]; rewrite Hc; [apply Hk | reflexivity].
Qed.

Lemma unfailing_ret {A} (a : A) : unfailing (mret a).
Proof. intros st. now exists a. Qed.

Lemma unfailing_emitTo room ev : unfailing (emitTo room ev).
Proof. intros st. now exists tt. Qed.

Lemma unfailing_bind {A B} (c : M A) (k : A -> M B) :
  unfailing c -> (forall a, unfailing (k a)) -> unfailing (c ≫= k).
Proof.
  intros Hc Hk st. rewrite bind_unfold. destruct (Hc st) as [a ->]. cbn [outcome].
  apply Hk.
Qed.

Lemma unfailing_tryCatch {A} (body : M A) (handler : Thrown -> M A) :
  (forall e, unfailing (handler e)) -> unfailing (tryCatch body handler).
Proof.
  intros Hh st. unfold tryCatch.
  destruct (outcome (body st)) as [a|e] eqn:E; [now exists a | apply Hh].
Qed.

Lemma quiet_of_silent {A} (c : M A) : silent c -> quietOnThrow c.
Proof. intros Hc st e _. apply Hc. Qed.

Lemma quiet_of_unfailing {A} (c : M A) : unfailing c -> quietOnThrow c.
Proof. intros Hc st e He. destruct (Hc st) as [a Ha]. congruence. Qed.

Lemma quiet_bind_silent {A B} (c : M A) (k : A -> M B) :
  silent c -> (forall a, quietOnThrow (k a)) -> quietOnThrow (c ≫= k).
Proof.
  intros Hc Hk st e. rewrite bind_unfold.
  destruct (outcome (c st)) as [a|e0]; cbn [outcome emitted]; rewrite Hc;
    [apply Hk | reflexivity].
Qed.

End Quiet.

Lemma unfailing_push ctx senderId recip cid viewing message :
  unfailing (sendMessage_push ctx senderId recip cid viewing message).
Proof.
  intros st. exists tt. apply sendMessage_push_pure.
Qed.

Lemma quiet_sendMessage ctx req : quietOnThrow (sendMessage ctx req).
Proof.
  unfold sendMessage.
  apply quiet_bind_silent; [apply silent_storeCall | intros created].
  apply quiet_bind_silent; [apply silent_storeCall | intros _].
  apply quiet_bind_silent.
  { destruct (bool_decide _); [|apply silent_ret].
    apply silent_bind; [apply silent_storeCall | intros _; apply silent_ret]. }
  intros message. apply quiet_of_unfailing.
  apply unfailing_bind; [apply unfailing_push | intros _].
  apply unfailing_bind; [|intros _; apply unfailing_ret].
  apply unfailing_tryCatch. intros _. apply unfailing_ret.
Qed.

Lemma quiet_deleteMessage ctx req : quietOnThrow (deleteMessage ctx req).
Proof.
  unfold deleteMessage.
  apply quiet_bind_silent; [apply silent_storeCall | intros [message|]];
    [|apply quiet_of_silent, silent_throw].
  destruct (negb _); [apply quiet_of_silent, silent_throw|].
  apply quiet_bind_silent; [apply silent_storeCall | intros _].
  apply quiet_of_unfailing.
  apply unfailing_bind; [|intros _; apply unfailing_ret].
  destruct (io ctx); [|apply unfailing_ret].
  destruct (socketOf _ _); [apply unfailing_emitTo | apply unfailing_ret].
Qed.

Lemma quiet_markAsRead ctx req : quietOnThrow (markAsRead ctx req).
Proof.
  unfold markAsRead.
  apply quiet_bind_silent; [apply silent_storeCall | intros messageIds].
  apply quiet_of_unfailing.
  apply unfailing_bind; [|intros _; apply unfailing_ret].
  destruct (io ctx); [|apply unfailing_ret].
  destruct (socketOf _ _); [apply unfailing_emitTo | apply unfailing_ret].
Qed.

(** X10. A REST handler that throws has emitted nothing: whatever the
    collaborators do, [sendMessage], [deleteMessage] and [markAsRead] push
    events only in requests that end with their success response. *)
Theorem rest_handlers_push_only_on_success (ctx : Ctx) :
  (forall req st e,
     outcome (sendMessage ctx req st) = Threw e -> emitted (sendMessage ctx req st) = [])
  /\ (forall req st e,
        outcome (deleteMessage ctx req st) = Threw e ->
        emitted (deleteMessage ctx req st) = [])
  /\ (forall req st e,
        outcome (markAsRead ctx req st) = Threw e ->
        emitted (markAsRead ctx req st) = []).
Proof.
  repeat split; intros req.
  - apply quiet_sendMessage.
  - apply quiet_deleteMessage.
  - apply quiet_markAsRead.
Qed.

Lemma rest_handlers_push_only_on_success_witness :
  outcome (sendMessage (failingCtx viewingThread populateFails) hiRequest ∅)
  = Threw (StoreError opPopulate)
  /\ emitted (sendMessage (failingCtx viewingThread populateFails) hiRequest ∅) = [].
Proof.
  assert (H : outcome (sendMessage (failingCtx viewingThread populateFails) hiRequest ∅)
              = Threw (StoreError opPopulate)) by reflexivity.
  split; [exact H|].
  destruct (rest_handlers_push_only_on_success (failingCtx viewingThread populateFails))
    as (Hsend & _ & _).
  exact (Hsend _ _ _ H).
Defined.

(** The run of [sendMessage] when the store calls it makes are not rejected. *)
Lemma sendMessage_run_gen ctx req st :
  storeFails ctx opCreate = false ->
  storeFails ctx opPopulate = false ->
  (recipientViewing ctx req = true -> storeFails ctx opSave = false) ->
  sendMessage ctx req st
  = {| outcome := Returned (sentResponse (sentMessage ctx req st));
       store := <[fresh (dom st) := sentMessage ctx req st]> st;
       emitted :=
         emitted (sendMessage_push ctx (send_userId req) (send_recipient req)
                    (conversationId (send_userId req) (send_recipient req))
                    (recipientViewing ctx req)
                    (sentMessage ctx req st) st) |}.
Proof.
  intros Hcreate Hpopulate Hsave. unfold sendMessage, Message_create, Message_populate.
  rewrite bind_unfold, storeCall_up by exact Hcreate. cbn [outcome store emitted fst snd].
  rewrite bind_unfold, storeCall_up by exact Hpopulate.
  cbn [outcome store emitted fst snd].
  unfold sentMessage, recipientViewing, focusOf in *.
  set (created := newDocument ctx (messageDataOf req) (fresh (dom st))).
  set (viewing := bool_decide (_ = _)) in *.
  rewrite bind_unfold.
  assert (Hmsg :
    (if viewing then Message_save ctx (readNow ctx created) ;; mret (readNow ctx created)
     else mret created) (<[_id created := created]> st)
    = {| outcome := Returned (if viewing then readNow ctx created else created);
         store := <[fresh (dom st) := if viewing then readNow ctx created else created]> st;
         emitted := [] |}).
  { destruct viewing; [|reflexivity].
    rewrite bind_unfold. unfold Message_save.
    rewrite storeCall_up by now apply Hsave. cbn [outcome store emitted fst snd].
    cbn. now rewrite insert_insert_eq. }
  rewrite Hmsg. cbn [outcome store emitted].
  set (message := if viewing then readNow ctx created else created).
  rewrite bind_unfold.
  destruct (sendMessage_push_pure ctx (send_userId req) (send_recipient req)
              (conversationId (send_userId req) (send_recipient req)) viewing message
              (<[fresh (dom st) := message]> st)) as [Ho Hs].
  rewrite Ho, Hs. cbn [outcome store emitted].
  rewrite bind_unfold, notification_swallowed. cbn [outcome store emitted].
  cbn. rewrite !app_nil_r. f_equal.
  apply sendMessage_push_store_irrelevant.
Qed.

(** The four ways a send can end. *)
Lemma sendMessage_cases ctx req st :
  sendMessage ctx req st
  = {| outcome := Threw (StoreError opCreate); store := st; emitted := [] |}
  \/ sendMessage ctx req st
     = {| outcome := Threw (StoreError opPopulate);
          store := <[fresh (dom st) :=
                       newDocument ctx (messageDataOf req) (fresh (dom st))]> st;
          emitted := [] |}
  \/ (recipientViewing ctx req = true
      /\ sendMessage ctx req st
         = {| outcome := Threw (StoreError opSave);
              store := <[fresh (dom st) :=
                           newDocument ctx (messageDataOf req) (fresh (dom st))]> st;
              emitted := [] |})
  \/ sendMessage ctx req st
     = {| outcome := Returned (sentResponse (sentMessage ctx req st));
          store := <[fresh (dom st) := sentMessage ctx req st]> st;
          emitted :=
            emitted (sendMessage_push ctx (send_userId req) (send_recipient req)
                       (conversationId (send_userId req) (send_recipient req))
                       (recipientViewing ctx req)
                       (sentMessage ctx req st) st) |}.
Proof.
  destruct (storeFails ctx opCreate) eqn:Hcreate.
  { left. unfold sendMessage, Message_create.
    now rewrite bind_unfold, storeCall_down by exact Hcreate. }
  destruct (storeFails ctx opPopulate) eqn:Hpopulate.
  { right. left. unfold sendMessage, Message_create, Message_populate.
    rewrite bind_unfold, storeCall_up by exact Hcreate.
    cbn [outcome store emitted fst snd].
    now rewrite bind_unfold, storeCall_down by exact Hpopulate. }
  destruct (recipientViewing ctx req) eqn:Hview.
  - destruct (storeFails ctx opSave) eqn:Hsave.
    + right. right. left. split; [reflexivity|].
      unfold sendMessage, Message_create, Message_populate.
      rewrite bind_unfold, storeCall_up by exact Hcreate.
      cbn [outcome store emitted fst snd].
      rewrite bind_unfold, storeCall_up by exact Hpopulate.
      cbn [outcome store emitted fst snd].
      unfold recipientViewing, focusOf in Hview.
      set (viewing := bool_decide (_ = _)) in *. clearbody viewing. subst viewing.
      rewrite bind_unfold, bind_unfold. unfold Message_save.
      now rewrite storeCall_down by exact Hsave.
    + right. right. right. rewrite <- Hview.
      apply sendMessage_run_gen; auto.
  - right. right. right. rewrite <- Hview.
    apply sendMessage_run_gen; auto. rewrite Hview. discriminate.
Qed.

(** X11. A send fails only because a call on the message collection is
    rejected. When [create] is rejected the store is untouched; when
    [populate], or the [save] of the auto-read, is rejected after the
    creation, the request fails although the new message stays in the store,
    unread. *)
Theorem sendMessage_failure_modes (ctx : Ctx) (req : SendRequest) (st : Store)
    (e : Thrown) :
  outcome (sendMessage ctx req st) = Threw e ->
  (e = StoreError opCreate /\ store (sendMessage ctx req st) = st)
  \/ ((e = StoreError opPopulate \/ e = StoreError opSave)
      /\ store (sendMessage ctx req st)
         = <[fresh (dom st) := newDocument ctx (messageDataOf req) (fresh (dom st))]> st
      /\ st !! fresh (dom st) = None
      /\ isRead (newDocument ctx (messageDataOf req) (fresh (dom st))) = false).
Proof.
  intros He.
  assert (Hfresh : st !! fresh (dom st) = None) by (apply not_elem_of_dom, is_fresh).
  destruct (sendMessage_cases ctx req st) as [H|[H|[[_ H]|H]]];
    rewrite H in He |- *; cbn [outcome store] in *.
  - left. now injection He as <-.
  - right. injection He as <-. auto.
  - right. injection He as <-. auto.
  - discriminate.
Qed.

Lemma sendMessage_failure_modes_witness :
  outcome (sendMessage (failingCtx viewingThread populateFails) hiRequest ∅)
  = Threw (StoreError opPopulate)
  /\ store (sendMessage (failingCtx viewingThread populateFails) hiRequest ∅)
     = <[fresh (dom (∅ : Store)) :=
           newDocument (failingCtx viewingThread populateFails)
             (messageDataOf hiRequest) (fresh (dom (∅ : Store)))]> ∅.
Proof.
  assert (H : outcome (sendMessage (failingCtx viewingThread populateFails) hiRequest ∅)
              = Threw (StoreError opPopulate)) by reflexivity.
  split; [exact H|].
  destruct (sendMessage_failure_modes _ _ _ _ H) as [[Habs _]|(_ & Hstore & _)];
    [discriminate Habs | exact Hstore].
Defined.

(** X12. A send never touches the messages already in the store, however it
    ends: each of them is found afterwards as it was. *)
Theorem sendMessage_keeps_existing_messages
    (ctx : Ctx) (req : SendRequest) (st : Store) (id : nat) (m : Message) :
  st !! id = Some m ->
  store (sendMessage ctx req st) !! id = Some m.
Proof.
  intros Hm.
  assert (Hne : fresh (dom st) <> id).
  { intros <-. apply (is_fresh (dom st)). apply elem_of_dom. eauto. }
  destruct (sendMessage_cases ctx req st) as [H|[H|[[_ H]|H]]];
    rewrite H; cbn [store]; rewrite ?lookup_insert_ne by exact Hne; exact Hm.
Qed.

Lemma sendMessage_keeps_existing_messages_witness :
  store (sendMessage (exampleCtx viewingThread) hiRequest oneMessage) !! 0
  = oneMessage !! 0.
Proof.
  apply (sendMessage_keeps_existing_messages (exampleCtx viewingThread) hiRequest
           oneMessage 0).
  reflexivity.
Defined.

(** The four ways a deletion can end. *)
Lemma deleteMessage_cases ctx req (st : Store) :
  deleteMessage ctx req st
  = {| outcome := Threw (StoreError opFindById); store := st; emitted := [] |}
  \/ ((st !! delete_messageId req = None
       \/ exists m, st !! delete_messageId req = Some m /\ sender m <> delete_userId req)
      /\ deleteMessage ctx req st
         = {| outcome := Threw (ReferenceError "AppError"); store := st; emitted := [] |})
  \/ exists m,
       st !! delete_messageId req = Some m /\ sender m = delete_userId req
       /\ (deleteMessage ctx req st
           = {| outcome := Threw (StoreError opDeleteOne); store := st; emitted := [] |}
           \/ deleteMessage ctx req st
              = {| outcome := Returned deletedResponse;
                   store := delete (_id m) st;
                   emitted :=
                     if io ctx then
                       match socketOf (live ctx) (Some (recipient m)) with
                       | Some h =>
                           [{| target := ToRoom (Some h);
                               event := messageDeleted (delete_messageId req) |}]
                       | None => []
                       end
                     else [] |}).
Proof.
  destruct (storeFails ctx opFindById) eqn:Hfind.
  { left. unfold deleteMessage, Message_findById.
    now rewrite bind_unfold, storeCall_down by exact Hfind. }
  destruct (st !! delete_messageId req) as [m|] eqn:Hm.
  - destruct (String.eqb_spec (sender m) (delete_userId req)) as [Hs|Hs].
    + right. right. exists m. split; [reflexivity|]. split; [exact Hs|].
      unfold deleteMessage, Message_findById, Message_deleteOne.
      rewrite bind_unfold, storeCall_up by exact Hfind.
      cbn [outcome store emitted fst snd].
      rewrite Hm, Hs, String.eqb_refl. cbn [negb].
      destruct (storeFails ctx opDeleteOne) eqn:Hdel.
      * left. now rewrite bind_unfold, storeCall_down by exact Hdel.
      * right. rewrite bind_unfold, storeCall_up by exact Hdel.
        cbn [outcome store emitted fst snd]. rewrite bind_unfold.
        destruct (io ctx); [|reflexivity].
        destruct (socketOf (live ctx) (Some (recipient m))); reflexivity.
    + right. left. split; [right; eauto|].
      apply deleteMessage_rejected; [exact Hfind|]. right. eauto.
  - right. left. split; [now left|].
    apply deleteMessage_rejected; [exact Hfind|]. now left.
Qed.

(** X13. A deletion changes the store, or emits, only when the requester is
    the sender of the message found under the id: the response is then the
    200 of a deletion and the store is the old one without that document. In
    every case the deletion adds nothing to the store and alters no document:
    what is found afterwards was there before. *)
Theorem deleteMessage_acts_only_for_sender
    (ctx : Ctx) (req : DeleteRequest) (st : Store) :
  (store (deleteMessage ctx req st) <> st \/ emitted (deleteMessage ctx req st) <> [] ->
   exists m,
     st !! delete_messageId req = Some m
     /\ sender m = delete_userId req
     /\ outcome (deleteMessage ctx req st) = Returned deletedResponse
     /\ store (deleteMessage ctx req st) = delete (_id m) st)
  /\ (forall id m, store (deleteMessage ctx req st) !! id = Some m -> st !! id = Some m).
Proof.
  destruct (deleteMessage_cases ctx req st)
    as [H|[[_ H]|(m & Hm & Hs & [H|H])]]; rewrite H; cbn [outcome store emitted];
    (split; [intros [Hne|Hne]; try (now destruct Hne) | try (intros id m' Hid; exact Hid)]).
  - exists m. auto.
  - exists m. auto.
  - intros id m' [_ Hid]%lookup_delete_Some. exact Hid.
Qed.

Lemma deleteMessage_acts_only_for_sender_witness :
  exists m,
    oneMessage !! 0 = Some m
    /\ sender m = "u1"
    /\ outcome (deleteMessage (exampleCtx bothOnline) deleteBySender oneMessage)
       = Returned deletedResponse.
Proof.
  destruct (deleteMessage_acts_only_for_sender (exampleCtx bothOnline) deleteBySender
              oneMessage) as [Hacts _].
  destruct Hacts as (m & Hm & Hs & Hout & _).
  { right. vm_compute. discriminate. }
  exists m. auto.
Defined.

(** *** The notification mail *)

Lemma length_substring_0 n : forall s,
  String.length (substring 0 n s) = Nat.min n (String.length s).
Proof.
  induction n as [|n IH]; intros [|c s]; cbn; try reflexivity. now rewrite IH.
Qed.

Lemma substring_0_all n : forall s, String.length s <= n -> substring 0 n s = s.
Proof.
  induction n as [|n IH]; intros [|c s] Hlen; cbn in *; try reflexivity.
  - inversion Hlen.
  - rewrite IH; [reflexivity | now apply le_S_n].
Qed.

Lemma length_append_string a : forall b,
  String.length (a +:+ b) = String.length a + String.length b.
Proof.
  induction a as [|c a IH]; intros b; [reflexivity|].
  change (String c a +:+ b) with (String c (a +:+ b)). cbn. now rewrite IH.
Qed.

Lemma append_empty_r a : a +:+ "" = a.
Proof.
  induction a as [|c a IH]; [reflexivity|].
  change (String c a +:+ "") with (String c (a +:+ "")). now rewrite IH.
Qed.

(** X14. The preview quoted in the notification mail is never longer than
    153 characters: a preview of at most 150 characters is quoted whole, a
    longer one is cut to its first 150 characters followed by three dots. *)
Theorem previewQuote_bounded (messagePreview : string) :
  String.length (previewQuote messagePreview) <= 153
  /\ (String.length messagePreview <= 150 -> previewQuote messagePreview = messagePreview)
  /\ (150 < String.length messagePreview ->
      previewQuote messagePreview = substring 0 150 messagePreview +:+ "..."
      /\ String.length (previewQuote messagePreview) = 153).
Proof.
  unfold previewQuote.
  destruct (Nat.ltb_spec 150 (String.length messagePreview)) as [Hlong|Hshort].
  - rewrite length_append_string, length_substring_0.
    rewrite Nat.min_l by lia. cbn. repeat split; lia.
  - rewrite append_empty_r, substring_0_all by exact Hshort.
    repeat split; try lia; auto.
Qed.

Lemma previewQuote_bounded_witness :
  previewQuote "see you at the gate at noon" = "see you at the gate at noon".
Proof.
  destruct (previewQuote_bounded "see you at the gate at noon") as (_ & Hshort & _).
  apply Hshort. cbn. lia.
Defined.

(** ** The route guard and the suspension of accounts *)

Lemma js_split_piece_tail sep c r :
  js_split sep (String c r) = [String c r] ->
  Ascii.eqb c sep = false /\ js_split sep r = [r].
Proof.
  cbn [js_split]. destruct (Ascii.eqb c sep); [discriminate|].
  destruct (js_split sep r) as [|p ps] eqn:E.
  - now destruct (js_split_nonempty sep r).
  - intros [= -> ->]. auto.
Qed.

Lemma js_split_app sep a rest :
  js_split sep a = [a] ->
  js_split sep (a +:+ String sep rest) = a :: js_split sep rest.
Proof.
  induction a as [|c r IH]; intros Hfree.
  - change ("" +:+ String sep rest) with (String sep rest).
    cbn [js_split]. now rewrite Ascii.eqb_refl.
  - apply js_split_piece_tail in Hfree as [Hc Hr].
    change (String c r +:+ String sep rest) with (String c (r +:+ String sep rest)).
    cbn [js_split]. rewrite Hc, (IH Hr). reflexivity.
Qed.

Lemma prefix_append p : forall s t,
  String.prefix p s = true -> String.prefix p (s +:+ t) = true.
Proof.
  induction p as [|c p IH]; intros s t H; [now destruct (s +:+ t)|].
  destruct s as [|d s]; [discriminate|].
  change (String d s +:+ t) with (String d (s +:+ t)).
  cbn in *. destruct (ascii_dec c d); [now apply IH | discriminate].
Qed.

Lemma bearerToken_header scheme token rest :
  String.prefix "Bearer" scheme = true ->
  Accounts.spaceFree scheme -> Accounts.spaceFree token ->
  rest = "" \/ (exists more, rest = String " " more) ->
  Accounts.bearerToken (Some (scheme +:+ String " " (token +:+ rest))) = Some token.
Proof.
  intros Hprefix Hscheme Htoken Hrest. unfold Accounts.bearerToken.
  assert (Htruthy : truthy (Some (scheme +:+ String " " (token +:+ rest))) = true)
    by (destruct scheme; [discriminate | reflexivity]).
  rewrite Htruthy, (prefix_append _ _ _ Hprefix). cbn [andb].
  rewrite (js_split_app _ _ _ Hscheme). cbn [nth_error].
  destruct Hrest as [->|[more ->]].
  - rewrite append_empty_r, Htoken. reflexivity.
  - rewrite (js_split_app _ _ _ Htoken). reflexivity.
Qed.

(** X15. The token of a request is the second piece, between spaces, of an
    [authorization] header that starts with ['Bearer']: for a scheme that
    starts with ['Bearer'] and a token, both without space, the header made
    of the scheme, a space and the token, with or without more after a
    further space, yields the token. A header that does not start with
    ['Bearer'], or has no space, yields none; and with two spaces after the
    scheme the token is empty and the request is refused with the 401. *)
Theorem bearerToken_is_second_piece (scheme token rest : string) :
  (String.prefix "Bearer" scheme = true ->
   Accounts.spaceFree scheme -> Accounts.spaceFree token ->
   rest = "" \/ (exists more, rest = String " " more) ->
   Accounts.bearerToken (Some (scheme +:+ String " " (token +:+ rest))) = Some token)
  /\ (forall header,
        String.prefix "Bearer" header = false ->
        Accounts.bearerToken (Some header) = None)
  /\ (forall header,
        Accounts.spaceFree header -> Accounts.bearerToken (Some header) = None)
  /\ (forall env db,
        String.prefix "Bearer" scheme = true -> Accounts.spaceFree scheme ->
        Accounts.authenticate env db (Some (scheme +:+ String " " (String " " rest)))
        = inl Accounts.notAuthorized).
Proof.
  split; [apply bearerToken_header|]. split; [|split].
  - intros header H. unfold Accounts.bearerToken. rewrite H. now rewrite andb_false_r.
  - intros header H. unfold Accounts.bearerToken. rewrite H.
    now destruct (_ && _).
  - intros env db Hprefix Hscheme. unfold Accounts.authenticate.
    replace (Accounts.bearerToken (Some (scheme +:+ String " " (String " " rest))))
      with (Some "").
    + reflexivity.
    + symmetry. apply (bearerToken_header scheme "" (String " " rest));
        [assumption | assumption | reflexivity | eauto].
Qed.

Lemma bearerToken_is_second_piece_witness :
  Accounts.bearerToken (Some "Bearer u1") = Some "u1"
  /\ Accounts.bearerToken (Some "BearerX u1 more") = Some "u1".
Proof.
  split.
  - destruct (bearerToken_is_second_piece "Bearer" "u1" "") as [H _].
    apply H; auto; reflexivity.
  - destruct (bearerToken_is_second_piece "BearerX" "u1" " more") as [H _].
    apply H; eauto; reflexivity.
Defined.

(** X16. The guard fails in three ways only: with the 401 "Not authorized";
    when the token verifies and the user it names is suspended, with the 403
    of a suspended account; or, when the verification of the token throws an
    error whose status is 403, with that error. The 404 "User not found" it
    constructs for a token whose user does not exist is never seen: that
    request gets the 401, as does a request during which the database rejects
    the query. *)
Theorem authenticate_fails_with_401_or_403
    (env : Accounts.Env) (db : Accounts.Db) (authorization : JsStr) :
  (forall error,
     Accounts.authenticate env db authorization = inl error ->
     error = Accounts.notAuthorized
     \/ (error = Accounts.suspended
         /\ exists token decoded user,
              Accounts.bearerToken authorization = Some token
              /\ Accounts.verifyAccessToken env token = Some decoded
              /\ Accounts.findById env db (claim_userId decoded) = inr (Some user)
              /\ Accounts.isSuspended user = true)
     \/ (error = Accounts.tokenError (Some 403)
         /\ exists token,
              Accounts.bearerToken authorization = Some token
              /\ Accounts.verifyAccessToken env token = None
              /\ Accounts.thrownStatusCode env token = Some 403))
  /\ (forall token decoded,
        Accounts.bearerToken authorization = Some token ->
        Accounts.verifyAccessToken env token = Some decoded ->
        Accounts.findById env db (claim_userId decoded) = inr None
        \/ Accounts.findFails env (claim_userId decoded) = true ->
        Accounts.authenticate env db authorization = inl Accounts.notAuthorized).
Proof.
  split.
  - intros error. unfold Accounts.authenticate.
    destruct (Accounts.bearerToken authorization) as [token|] eqn:Htoken;
      [|intros [= <-]; now left].
    destruct (truthy (Some token)); [|intros [= <-]; now left].
    unfold Accounts.authenticateTry.
    destruct (Accounts.verifyAccessToken env token) as [decoded|] eqn:Hverify.
    + destruct (Accounts.findById env db (claim_userId decoded)) as [e|[user|]] eqn:Hfind.
      * unfold Accounts.findById in Hfind.
        destruct (Accounts.findFails env _); [|discriminate].
        injection Hfind as <-. intros [= <-]. now left.
      * destruct (Accounts.isSuspended user) eqn:Hsusp; [|discriminate].
        intros [= <-]. right. left. split; [reflexivity|]. eauto 10.
      * intros [= <-]. now left.
    + destruct (decide _) as [Hcode|_]; intros [= <-]; [|now left].
      cbn in Hcode. right. right. rewrite Hcode. eauto.
  - intros token decoded Htoken Hverify Hcase. unfold Accounts.authenticate.
    rewrite Htoken. destruct (truthy (Some token)); [|reflexivity].
    unfold Accounts.authenticateTry. rewrite Hverify.
    destruct Hcase as [->|Hfails]; [reflexivity|].
    unfold Accounts.findById. now rewrite Hfails.
Qed.

Lemma authenticate_fails_with_401_or_403_witness :
  Accounts.authenticate Accounts.exampleEnv Accounts.oneAccount (Some "Bearer u7")
  = inl Accounts.notAuthorized.
Proof.
  destruct (authenticate_fails_with_401_or_403 Accounts.exampleEnv Accounts.oneAccount
              (Some "Bearer u7")) as [_ H].
  apply (H "u7" {| claim_userId := Some "u7"; claim_id := None; claim__id := None |});
    [reflexivity | reflexivity | left; reflexivity].
Defined.

(** X17. The guard lets a request through exactly when the header yields a
    non-empty token, the token verifies, the database answers, the [userId]
    claim names a user document, and that user is not suspended; the user
    attached to the request is that document. Whether the account is active
    plays no part. *)
Theorem authenticate_passes_iff
    (env : Accounts.Env) (db : Accounts.Db) (authorization : JsStr)
    (id : JsStr) (user : Accounts.Account) :
  Accounts.authenticate env db authorization = inr (id, user)
  <-> exists token decoded,
        Accounts.bearerToken authorization = Some token
        /\ token <> ""
        /\ Accounts.verifyAccessToken env token = Some decoded
        /\ id = claim_userId decoded
        /\ Accounts.findById env db id = inr (Some user)
        /\ Accounts.isSuspended user = false.
Proof.
  unfold Accounts.authenticate. split.
  - destruct (Accounts.bearerToken authorization) as [token|]; [|discriminate].
    destruct (truthy (Some token)) eqn:Htruthy; [|discriminate].
    unfold Accounts.authenticateTry.
    destruct (Accounts.verifyAccessToken env token) as [decoded|] eqn:Hverify;
      [|destruct (decide _); discriminate].
    destruct (Accounts.findById env db (claim_userId decoded)) as [e|[u|]] eqn:Hfind.
    + destruct (decide _); discriminate.
    + destruct (Accounts.isSuspended u) eqn:Hsusp; [cbn; discriminate|].
      intros [= <- <-]. exists token, decoded. repeat split; auto.
      intros ->. discriminate Htruthy.
    + cbn. discriminate.
  - intros (token & decoded & -> & Hne & Hverify & -> & Hfind & Hsusp).
    assert (Htruthy : truthy (Some token) = true).
    { cbn. apply negb_true_iff. now apply String.eqb_neq. }
    rewrite Htruthy. unfold Accounts.authenticateTry. now rewrite Hverify, Hfind, Hsusp.
Qed.

Lemma authenticate_passes_iff_witness :
  exists user,
    Accounts.authenticate Accounts.exampleEnv Accounts.oneAccount (Some "Bearer u1")
    = inr (Some "u1", user)
    /\ Accounts.isSuspended user = false.
Proof.
  eexists. split.
  - apply authenticate_passes_iff.
    exists "u1", {| claim_userId := Some "u1"; claim_id := None; claim__id := None |}.
    split; [reflexivity|]. split; [discriminate|]. split; [reflexivity|].
    split; [reflexivity|]. split; reflexivity.
  - reflexivity.
Defined.

Lemma authenticate_of_account env (db : Accounts.Db) authorization token decoded userId user :
  Accounts.findFails env (Some userId) = false ->
  Accounts.bearerToken authorization = Some token -> token <> "" ->
  Accounts.verifyAccessToken env token = Some decoded ->
  claim_userId decoded = Some userId ->
  db !! userId = Some user ->
  Accounts.authenticate env db authorization
  = if Accounts.isSuspended user then inl Accounts.suspended
    else inr (Some userId, user).
Proof.
  intros Hfind Htoken Hne Hverify Hclaim Huser.
  unfold Accounts.authenticate. rewrite Htoken.
  assert (Htruthy : truthy (Some token) = true).
  { cbn. apply negb_true_iff. now apply String.eqb_neq. }
  rewrite Htruthy. unfold Accounts.authenticateTry, Accounts.findById.
  rewrite Hverify, Hclaim, Hfind, Huser. now destruct (Accounts.isSuspended user).
Qed.

(** X18. Suspension locks an account out until it is activated: when the
    database answers, [suspendUser] on an account that is not an
    administrator succeeds, after which every request with a token of that
    account is refused with the 403 of a suspended account; [activateUser]
    then succeeds, after which the same request passes, with the role of the
    account as it was; and no other account is touched. *)
Theorem suspension_locks_out_until_activation
    (env : Accounts.Env) (db : Accounts.Db) (userId : string) (reason : JsStr)
    (user : Accounts.Account) (authorization : JsStr) (token : string)
    (decoded : JwtPayload) :
  Accounts.findFails env (Some userId) = false -> Accounts.saveFails env = false ->
  db !! userId = Some user -> Accounts.role user <> "admin" ->
  Accounts.bearerToken authorization = Some token -> token <> "" ->
  Accounts.verifyAccessToken env token = Some decoded ->
  claim_userId decoded = Some userId ->
  exists user1 db1 user2 db2,
    Accounts.suspendUser env db userId reason = inr (user1, db1)
    /\ Accounts.authenticate env db1 authorization = inl Accounts.suspended
    /\ Accounts.activateUser env db1 userId = inr (user2, db2)
    /\ Accounts.authenticate env db2 authorization = inr (Some userId, user2)
    /\ Accounts.role user2 = Accounts.role user
    /\ (forall other, other <> userId -> db2 !! other = db !! other).
Proof.
  intros Hfind Hsave Huser Hrole Htoken Hne Hverify Hclaim.
  apply String.eqb_neq in Hrole.
  exists (Accounts.suspend env user reason),
         (<[userId := Accounts.suspend env user reason]> db),
         (Accounts.activate (Accounts.suspend env user reason)),
         (<[userId := Accounts.activate (Accounts.suspend env user reason)]>
            (<[userId := Accounts.suspend env user reason]> db)).
  split; [|split; [|split; [|split; [|split]]]].
  - unfold Accounts.suspendUser, Accounts.findById, Accounts.save.
    now rewrite Hfind, Huser, Hrole, Hsave.
  - rewrite (authenticate_of_account env _ authorization token decoded userId
               (Accounts.suspend env user reason)); auto.
    apply lookup_insert_eq.
  - unfold Accounts.activateUser, Accounts.findById, Accounts.save.
    now rewrite Hfind, lookup_insert_eq, Hsave.
  - rewrite (authenticate_of_account env _ authorization token decoded userId
               (Accounts.activate (Accounts.suspend env user reason))); auto.
    apply lookup_insert_eq.
  - reflexivity.
  - intros other Hother. now rewrite !lookup_insert_ne by congruence.
Qed.

Lemma suspension_locks_out_until_activation_witness :
  exists user1 db1 user2 db2,
    Accounts.suspendUser Accounts.exampleEnv Accounts.oneAccount "u1" None
    = inr (user1, db1)
    /\ Accounts.authenticate Accounts.exampleEnv db1 (Some "Bearer u1")
       = inl Accounts.suspended
    /\ Accounts.activateUser Accounts.exampleEnv db1 "u1" = inr (user2, db2)
    /\ Accounts.authenticate Accounts.exampleEnv db2 (Some "Bearer u1")
       = inr (Some "u1", user2).
Proof.
  destruct (suspension_locks_out_until_activation Accounts.exampleEnv
              Accounts.oneAccount "u1" None
              {| Accounts.role := "user"; Accounts.isActive := true;
                 Accounts.isSuspended := false; Accounts.suspensionReason := None;
                 Accounts.suspendedAt := None |}
              (Some "Bearer u1") "u1"
              {| claim_userId := Some "u1"; claim_id := None; claim__id := None |}
              eq_refl eq_refl eq_refl ltac:(discriminate) eq_refl ltac:(discriminate)
              eq_refl eq_refl)
    as (user1 & db1 & user2 & db2 & H1 & H2 & H3 & H4 & _).
  exists user1, db1, user2, db2. auto.
Defined.

(** X19. [suspendUser] refuses an administrator with a 403, but [makeAdmin]
    changes the role only: it succeeds on any account, suspended or not, and
    leaves [isSuspended] as it is. A suspended account made administrator is
    thus a suspended administrator: its requests are still refused with the
    403 of a suspended account, and [suspendUser] now refuses it. *)
Theorem makeAdmin_keeps_suspension
    (env : Accounts.Env) (db : Accounts.Db) (userId : string)
    (user : Accounts.Account) :
  Accounts.findFails env (Some userId) = false -> Accounts.saveFails env = false ->
  db !! userId = Some user ->
  (Accounts.role user = "admin" ->
   forall reason,
     Accounts.suspendUser env db userId reason
     = inl (Accounts.appError "Cannot suspend admin users" 403))
  /\ exists user' db',
       Accounts.makeAdmin env db userId = inr (user', db')
       /\ db' !! userId = Some user'
       /\ Accounts.role user' = "admin"
       /\ Accounts.isSuspended user' = Accounts.isSuspended user
       /\ (forall reason,
             Accounts.suspendUser env db' userId reason
             = inl (Accounts.appError "Cannot suspend admin users" 403))
       /\ (Accounts.isSuspended user = true ->
           forall authorization token decoded,
             Accounts.bearerToken authorization = Some token -> token <> "" ->
             Accounts.verifyAccessToken env token = Some decoded ->
             claim_userId decoded = Some userId ->
             Accounts.authenticate env db' authorization = inl Accounts.suspended).
Proof.
  intros Hfind Hsave Huser. split.
  - intros Hrole reason. unfold Accounts.suspendUser, Accounts.findById.
    now rewrite Hfind, Huser, Hrole.
  - eexists. eexists. split.
    { unfold Accounts.makeAdmin, Accounts.findById, Accounts.save.
      rewrite Hfind, Huser, Hsave. reflexivity. }
    split; [apply lookup_insert_eq|]. split; [reflexivity|]. split; [reflexivity|].
    split.
    + intros reason. unfold Accounts.suspendUser, Accounts.findById.
      now rewrite Hfind, lookup_insert_eq.
    + intros Hsusp authorization token decoded Htoken Hne Hverify Hclaim.
      erewrite authenticate_of_account; eauto; [|apply lookup_insert_eq].
      cbn. now rewrite Hsusp.
Qed.

Lemma makeAdmin_keeps_suspension_witness :
  exists user' db',
    Accounts.makeAdmin Accounts.exampleEnv Accounts.oneAccount "u1" = inr (user', db')
    /\ Accounts.role user' = "admin"
    /\ Accounts.suspendUser Accounts.exampleEnv db' "u1" None
       = inl (Accounts.appError "Cannot suspend admin users" 403).
Proof.
  destruct (makeAdmin_keeps_suspension Accounts.exampleEnv Accounts.oneAccount "u1"
              {| Accounts.role := "user"; Accounts.isActive := true;
                 Accounts.isSuspended := false; Accounts.suspensionReason := None;
                 Accounts.suspendedAt := None |} eq_refl eq_refl eq_refl)
    as (_ & user' & db' & Hmake & _ & Hrole & _ & Hrefuse & _).
  exists user', db'. auto.
Defined.

(** ** Orders *)

Section OrderProperties.

Context {N : Orders.Numbers}.

(** A listed transition to a status of the schema goes from pending to
    processing or cancelled, or from processing to cancelled. *)
Lemma listed_and_valid current newStatus st :
  Orders.transitionListed current newStatus = true ->
  Orders.parseStatus newStatus = Some st ->
  (current = Orders.pending /\ newStatus = "processing" /\ st = Orders.processing)
  \/ (current = Orders.pending /\ newStatus = "cancelled" /\ st = Orders.cancelled)
  \/ (current = Orders.processing /\ newStatus = "cancelled" /\ st = Orders.cancelled).
Proof.
  unfold Orders.transitionListed.
  destruct current; cbn; try discriminate; intros Hlisted Hparse;
    repeat match type of Hlisted with
           | (String.eqb ?a ?b || _) = true =>
               destruct (String.eqb_spec a b) as [->|_]; cbn in Hlisted
           end;
    try discriminate; cbn in Hparse; injection Hparse as <-; auto.
Qed.

Lemma notifyBuyer_frame env db buyerDoc newStatus :
  Orders.orders (Orders.notifyBuyer env db buyerDoc newStatus) = Orders.orders db
  /\ Orders.members (Orders.notifyBuyer env db buyerDoc newStatus) = Orders.members db
  /\ Orders.products (Orders.notifyBuyer env db buyerDoc newStatus) = Orders.products db.
Proof.
  unfold Orders.notifyBuyer. destruct (Orders.email buyerDoc); [|auto].
  destruct (truthy _); [|auto]. destruct (Orders.mailFails env); auto.
Qed.

(** The ways [updateOrderStatus] can end. *)
Lemma updateOrderStatus_cases env db orderId userId newStatus note_ :
  (Orders.database (Orders.updateOrderStatus env db orderId userId newStatus note_) = db
   /\ exists e,
        Orders.returned (Orders.updateOrderStatus env db orderId userId newStatus note_)
        = inl e)
  \/ exists order st order',
       Orders.orders db !! orderId = Some order
       /\ Orders.sellsIn order userId = true
       /\ Orders.parseStatus newStatus = Some st
       /\ ((Orders.status order = Orders.pending /\ newStatus = "processing"
            /\ st = Orders.processing)
           \/ (Orders.status order = Orders.pending /\ newStatus = "cancelled"
               /\ st = Orders.cancelled)
           \/ (Orders.status order = Orders.processing /\ newStatus = "cancelled"
               /\ st = Orders.cancelled))
       /\ Orders.updateStatus env db orderId order newStatus userId note_
          = inr (order', Orders.withOrders db (<[orderId := order']> (Orders.orders db)))
       /\ Orders.status order' = st
       /\ Orders.orders
            (Orders.database (Orders.updateOrderStatus env db orderId userId newStatus note_))
          = <[orderId := order']> (Orders.orders db)
       /\ Orders.members
            (Orders.database (Orders.updateOrderStatus env db orderId userId newStatus note_))
          = Orders.members db
       /\ Orders.products
            (Orders.database (Orders.updateOrderStatus env db orderId userId newStatus note_))
          = Orders.products db
       /\ match Orders.members db !! Orders.buyer order with
          | None =>
              Orders.returned
                (Orders.updateOrderStatus env db orderId userId newStatus note_)
              = inl Orders.typeError
          | Some _ =>
              Orders.returned
                (Orders.updateOrderStatus env db orderId userId newStatus note_)
              = inr order'
          end.
Proof.
  unfold Orders.updateOrderStatus.
  destruct (Orders.dbRejects env Orders.findOrder); [left; cbn; eauto|].
  destruct (Orders.orders db !! orderId) as [order|] eqn:Horder; [|left; cbn; eauto].
  destruct (Orders.sellsIn order userId) eqn:Hsells; cbn [negb]; [|left; cbn; eauto].
  destruct (Orders.transitionListed (Orders.status order) newStatus) eqn:Hlisted;
    cbn [negb]; [|left; cbn; eauto].
  destruct (Orders.updateStatus env db orderId order newStatus userId note_)
    as [e|[order' db1]] eqn:Hupdate; [left; cbn; eauto|].
  right. unfold Orders.updateStatus in Hupdate.
  destruct (Orders.parseStatus newStatus) as [st|] eqn:Hparse; [|discriminate].
  unfold Orders.saveOrderDoc in Hupdate.
  destruct (Orders.dbRejects env Orders.saveOrder) eqn:Hsave; [discriminate|].
  injection Hupdate as <- <-.
  pose proof (listed_and_valid _ _ _ Hlisted Hparse) as Hcases.
  assert (Hnc : String.eqb newStatus "completed" = false).
  { destruct Hcases as [(_ & -> & _)|[(_ & -> & _)|(_ & -> & _)]]; reflexivity. }
  eexists order, st, _. split; [reflexivity|]. split; [exact Hsells|].
  split; [reflexivity|]. split; [exact Hcases|].
  split; [unfold Orders.updateStatus, Orders.saveOrderDoc; rewrite Hparse, Hsave;
          reflexivity|].
  split; [reflexivity|].
  destruct (Orders.members db !! Orders.buyer order) as [buyerDoc|]; [|cbn; auto].
  rewrite Hnc. cbn [Orders.returned Orders.database].
  destruct (notifyBuyer_frame env
              (Orders.withOrders db
                 (<[orderId := {| Orders.buyer := Orders.buyer order;
                                  Orders.items := Orders.items order;
                                  Orders.status := st;
                                  Orders.statusHistory :=
                                    Orders.statusHistory order
                                    ++ [{| Orders.entryStatus := newStatus;
                                           Orders.updatedBy := Some userId;
                                           Orders.timestamp := Orders.clock env;
                                           Orders.note := Some note_ |}];
                                  Orders.completedAt := Orders.completedAt order;
                                  Orders.cancelledBy := Orders.cancelledBy order;
                                  Orders.cancelledAt := Orders.cancelledAt order;
                                  Orders.cancellationReason :=
                                    Orders.cancellationReason order |}]>
                    (Orders.orders db))) buyerDoc newStatus) as (Ho & Hm & Hp).
  rewrite Ho, Hm, Hp. cbn. auto.
Qed.

(** X20. A call of [updateOrderStatus] changes the status of no order but
    the one it names, and that one only from pending to processing, from
    pending to cancelled or from processing to cancelled, and only when the
    caller sells an item of it: the other targets of the table
    ([ready_for_pickup], [out_for_delivery], hence [completed]) are refused,
    by the table or by the enum of the schema when the document is saved. The
    accounts and the products are never touched. *)
Theorem updateOrderStatus_transitions
    (env : Orders.Env) (db : Orders.Db) (orderId userId newStatus note_ : string) :
  (forall id,
     Orders.statusIn
       (Orders.database (Orders.updateOrderStatus env db orderId userId newStatus note_)) id
     = Orders.statusIn db id
     \/ (id = orderId
         /\ (exists order, Orders.orders db !! orderId = Some order
                           /\ Orders.sellsIn order userId = true)
         /\ ((Orders.statusIn db id = Some Orders.pending
              /\ Orders.statusIn
                   (Orders.database
                      (Orders.updateOrderStatus env db orderId userId newStatus note_)) id
                 = Some Orders.processing)
             \/ ((Orders.statusIn db id = Some Orders.pending
                  \/ Orders.statusIn db id = Some Orders.processing)
                 /\ Orders.statusIn
                      (Orders.database
                         (Orders.updateOrderStatus env db orderId userId newStatus note_)) id
                    = Some Orders.cancelled))))
  /\ Orders.members
       (Orders.database (Orders.updateOrderStatus env db orderId userId newStatus note_))
     = Orders.members db
  /\ Orders.products
       (Orders.database (Orders.updateOrderStatus env db orderId userId newStatus note_))
     = Orders.products db.
Proof.
  destruct (updateOrderStatus_cases env db orderId userId newStatus note_)
    as [[-> _]|(order & st & order' & Horder & Hsells & _ & Hcases & _ & Hst & Ho & Hm & Hp
                & _)].
  - split; [now left | split; reflexivity].
  - split; [|split; assumption].
    intros id. unfold Orders.statusIn. rewrite Ho.
    destruct (decide (id = orderId)) as [->|Hne];
      [|left; now rewrite lookup_insert_ne by congruence].
    right. split; [reflexivity|]. split; [eauto|].
    rewrite lookup_insert_eq, Horder. cbn. rewrite Hst.
    destruct Hcases as [(-> & _ & ->)|[(-> & _ & ->)|(-> & _ & ->)]]; auto.
Qed.

Lemma updateOrderStatus_keeps_uncompleted env db orderId userId newStatus note_ id :
  (Orders.statusIn db id <> Some Orders.completed ->
   Orders.statusIn
     (Orders.database (Orders.updateOrderStatus env db orderId userId newStatus note_)) id
   <> Some Orders.completed)
  /\ Orders.members
       (Orders.database (Orders.updateOrderStatus env db orderId userId newStatus note_))
     = Orders.members db.
Proof.
  destruct (updateOrderStatus_cases env db orderId userId newStatus note_)
    as [[-> _]|(order & st & order' & _ & _ & _ & Hcases & _ & Hst & Ho & Hm & _)];
    [now split|].
  split; [|exact Hm].
  unfold Orders.statusIn. rewrite Ho. intros Hnot.
  destruct (decide (id = orderId)) as [->|Hne];
    [|now rewrite lookup_insert_ne by congruence].
  rewrite lookup_insert_eq. cbn. rewrite Hst.
  destruct Hcases as [(_ & _ & ->)|[(_ & _ & ->)|(_ & _ & ->)]]; discriminate.
Qed.

(** X21. No sequence of calls of [updateOrderStatus] completes an order: an
    order that is not completed before is not completed after, whoever calls
    and whatever the collaborators do; and the sales totals that the function
    credits on completion are never changed. *)
Theorem updateOrderStatus_never_completes
    (calls : list Orders.StatusCall) (db : Orders.Db) (id : string) :
  (Orders.statusIn db id <> Some Orders.completed ->
   Orders.statusIn (Orders.updateAll calls db) id <> Some Orders.completed)
  /\ Orders.members (Orders.updateAll calls db) = Orders.members db.
Proof.
  revert db. induction calls as [|c calls IH]; intros db; [now split|].
  cbn [Orders.updateAll].
  destruct (updateOrderStatus_keeps_uncompleted (Orders.callEnv c) db
              (Orders.callOrderId c) (Orders.callUserId c) (Orders.callStatus c)
              (Orders.callNote c) id) as [Hstatus Hmembers].
  destruct (IH (Orders.database
                  (Orders.updateOrderStatus (Orders.callEnv c) db (Orders.callOrderId c)
                     (Orders.callUserId c) (Orders.callStatus c) (Orders.callNote c))))
    as [IHs IHm].
  split; [|now rewrite IHm].
  intros Hnot. apply IHs, Hstatus, Hnot.
Qed.

(** X22. The update is not undone when the request fails late: when the
    account of the buyer no longer exists, an update by the seller from
    pending to processing is saved, and then the request fails on reading
    the address of the buyer. *)
Theorem updateOrderStatus_saved_then_fails
    (env : Orders.Env) (db : Orders.Db) (orderId userId note_ : string)
    (order : Orders.Order) :
  Orders.dbRejects env Orders.findOrder = false ->
  Orders.dbRejects env Orders.saveOrder = false ->
  Orders.orders db !! orderId = Some order ->
  Orders.sellsIn order userId = true ->
  Orders.status order = Orders.pending ->
  Orders.members db !! Orders.buyer order = None ->
  Orders.returned (Orders.updateOrderStatus env db orderId userId "processing" note_)
  = inl Orders.typeError
  /\ Orders.statusIn
       (Orders.database (Orders.updateOrderStatus env db orderId userId "processing" note_))
       orderId
     = Some Orders.processing.
Proof.
  intros Hfind Hsave Horder Hsells Hstatus Hbuyer.
  unfold Orders.updateOrderStatus, Orders.updateStatus, Orders.saveOrderDoc,
    Orders.transitionListed, Orders.statusIn.
  rewrite Hfind, Horder, Hsells, Hstatus, Hsave, Hbuyer. cbn.
  split; [reflexivity|]. now rewrite lookup_insert_eq.
Qed.

Lemma parseStatus_name newStatus st :
  Orders.parseStatus newStatus = Some st -> Orders.statusName st = newStatus.
Proof.
  unfold Orders.parseStatus.
  repeat match goal with
         | |- context [String.eqb ?a ?b] => destruct (String.eqb_spec a b) as [->|_]
         end; intros [= <-]; reflexivity.
Qed.

Lemma incrementStock_saved env db productId p qty db' :
  Orders.incrementStock env db productId p qty = inr db' ->
  db' = Orders.withProducts db (<[productId := Orders.restocked p qty]> (Orders.products db)).
Proof.
  unfold Orders.incrementStock, Orders.restocked.
  destruct (negb _); [discriminate|].
  destruct (Orders.dbRejects env Orders.saveProduct); [discriminate|].
  intros [= <-]. do 3 f_equal.
  destruct (Orders.productStatus p); try reflexivity.
  destruct (Orders.ltb Orders.zero _); reflexivity.
Qed.

Lemma restoreStock_frame env its : forall db,
  Orders.orders (Orders.restoreStock env its db).2 = Orders.orders db
  /\ Orders.members (Orders.restoreStock env its db).2 = Orders.members db
  /\ Orders.outbox (Orders.restoreStock env its db).2 = Orders.outbox db.
Proof.
  induction its as [|item rest IH]; intros db; [now cbn|].
  cbn [Orders.restoreStock].
  destruct (Orders.products db !! Orders.product item) as [p|]; [|apply IH].
  destruct (Orders.incrementStock env db (Orders.product item) p (Orders.quantity item))
    as [e|db1] eqn:Hinc; [now cbn|].
  apply incrementStock_saved in Hinc as ->.
  destruct (IH (Orders.withProducts db
                  (<[Orders.product item := Orders.restocked p (Orders.quantity item)]>
                     (Orders.products db)))) as (Ho & Hm & Hb).
  now rewrite Ho, Hm, Hb.
Qed.

(** What a completed restoration does to the products. *)
Lemma restoreStock_products env its : forall db db',
  Orders.restoreStock env its db = (None, db') ->
  NoDup (map Orders.product its) ->
  (forall id, ~ In id (map Orders.product its) ->
     Orders.products db' !! id = Orders.products db !! id)
  /\ (forall item, In item its ->
      forall p, Orders.products db !! Orders.product item = Some p ->
        Orders.products db' !! Orders.product item
        = Some (Orders.restocked p (Orders.quantity item))).
Proof.
  induction its as [|item rest IH]; intros db db' Hrun Hnodup.
  - cbn in Hrun. injection Hrun as <-. split; [reflexivity | intros ? []].
  - cbn [map] in Hnodup. apply NoDup_cons in Hnodup as [Hhead Hnodup].
    rewrite list_elem_of_In in Hhead.
    cbn [Orders.restoreStock] in Hrun.
    destruct (Orders.products db !! Orders.product item) as [p|] eqn:Hp.
    + destruct (Orders.incrementStock env db (Orders.product item) p
                  (Orders.quantity item)) as [e|db1] eqn:Hinc; [discriminate|].
      apply incrementStock_saved in Hinc as ->.
      destruct (IH _ _ Hrun Hnodup) as [Hframe Heffect]. cbn in Hframe, Heffect.
      split.
      * intros id Hid. cbn [map In] in Hid.
        rewrite Hframe by tauto. apply lookup_insert_ne. tauto.
      * intros item' [<-|Hin] p' Hp'.
        -- rewrite Hframe by exact Hhead. rewrite lookup_insert_eq. congruence.
        -- apply Heffect; [exact Hin|].
           rewrite lookup_insert_ne; [exact Hp'|].
           intros Heq. apply Hhead. rewrite Heq. now apply in_map.
    + destruct (IH _ _ Hrun Hnodup) as [Hframe Heffect].
      split.
      * intros id Hid. apply Hframe. cbn [map In] in Hid. tauto.
      * intros item' [<-|Hin] p' Hp'; [congruence|]. now apply Heffect.
Qed.

(** A cancellation that returns the order. *)
Lemma cancelOrder_success env db orderId userId reason order' :
  Orders.returned (Orders.cancelOrder env db orderId userId reason) = inr order' ->
  exists order buyerDoc db1,
    Orders.orders db !! orderId = Some order
    /\ Orders.members db !! Orders.buyer order = Some buyerDoc
    /\ (Orders.buyer order = userId \/ Orders.sellsIn order userId = true)
    /\ Orders.canBeCancelled order = true
    /\ Orders.restoreStock env (Orders.items order) db = (None, db1)
    /\ order' = Orders.cancelledDoc env order userId reason
    /\ Orders.database (Orders.cancelOrder env db orderId userId reason)
       = Orders.notifyBuyer env
           (Orders.withOrders db1 (<[orderId := order']> (Orders.orders db1)))
           buyerDoc "cancelled".
Proof.
  unfold Orders.cancelOrder.
  destruct (Orders.dbRejects env Orders.findOrder); [discriminate|].
  destruct (Orders.orders db !! orderId) as [order|]; [|discriminate].
  destruct (Orders.members db !! Orders.buyer order) as [buyerDoc|] eqn:Hbuyer;
    [|discriminate].
  destruct (String.eqb_spec (Orders.buyer order) userId) as [Hb|Hb];
    destruct (Orders.sellsIn order userId) eqn:Hsells; cbn [negb andb];
    try discriminate;
    (destruct (Orders.canBeCancelled order) eqn:Hcan; cbn [negb]; [|discriminate];
     destruct (Orders.restoreStock env (Orders.items order) db) as [[e|] db1] eqn:Hrestore;
       [discriminate|];
     unfold Orders.cancelOrderDoc, Orders.saveOrderDoc;
     destruct (Orders.dbRejects env Orders.saveOrder); [discriminate|];
     cbn [Orders.returned Orders.database]; intros [= <-];
     exists order, buyerDoc, db1; repeat split; auto).
Qed.

(** A cancellation that does not return the order leaves the orders. *)
Lemma cancelOrder_failure_orders env db orderId userId reason e :
  Orders.returned (Orders.cancelOrder env db orderId userId reason) = inl e ->
  Orders.orders (Orders.database (Orders.cancelOrder env db orderId userId reason))
  = Orders.orders db.
Proof.
  unfold Orders.cancelOrder.
  destruct (Orders.dbRejects env Orders.findOrder); [reflexivity|].
  destruct (Orders.orders db !! orderId) as [order|]; [|reflexivity].
  destruct (Orders.members db !! Orders.buyer order) as [buyerDoc|]; [|reflexivity].
  destruct (negb _ && negb _); [reflexivity|].
  destruct (negb (Orders.canBeCancelled order)); [reflexivity|].
  pose proof (restoreStock_frame env (Orders.items order) db) as (Ho & _ & _).
  destruct (Orders.restoreStock env (Orders.items order) db) as [[e0|] db1];
    cbn [snd] in Ho; [intros _; exact Ho|].
  unfold Orders.cancelOrderDoc, Orders.saveOrderDoc.
  destruct (Orders.dbRejects env Orders.saveOrder); [intros _; exact Ho | discriminate].
Qed.

(** X23. The status of an order is always the one its history ends with:
    when this holds of every order of the database, it holds again after a
    call of [updateOrderStatus] and after a call of [cancelOrder], however
    they end. *)
Theorem status_history_stays_current
    (env : Orders.Env) (db : Orders.Db) (orderId userId : string) :
  Orders.historiesCurrent db ->
  (forall newStatus note_,
     Orders.historiesCurrent
       (Orders.database (Orders.updateOrderStatus env db orderId userId newStatus note_)))
  /\ (forall reason,
        Orders.historiesCurrent
          (Orders.database (Orders.cancelOrder env db orderId userId reason))).
Proof.
  intros Hcur. split.
  - intros newStatus note_.
    destruct (updateOrderStatus_cases env db orderId userId newStatus note_)
      as [[-> _]|(order & st & order' & Horder & _ & Hparse & _ & Hupdate & _ & Ho & _)];
      [exact Hcur|].
    intros id o. rewrite Ho.
    destruct (decide (id = orderId)) as [->|Hne];
      [|rewrite lookup_insert_ne by congruence; apply Hcur].
    rewrite lookup_insert_eq. intros [= <-].
    unfold Orders.updateStatus in Hupdate. rewrite Hparse in Hupdate.
    destruct (Orders.saveOrderDoc env db orderId _); [discriminate|].
    injection Hupdate as <- _.
    eexists _, _. split; [reflexivity|]. cbn. symmetry. now apply parseStatus_name.
  - intros reason.
    destruct (Orders.returned (Orders.cancelOrder env db orderId userId reason))
      as [e|order'] eqn:Hret.
    + intros id o. rewrite (cancelOrder_failure_orders _ _ _ _ _ _ Hret). apply Hcur.
    + destruct (cancelOrder_success _ _ _ _ _ _ Hret)
        as (order & buyerDoc & db1 & Horder & _ & _ & _ & Hrestore & -> & ->).
      intros id o.
      destruct (notifyBuyer_frame env
                  (Orders.withOrders db1
                     (<[orderId := Orders.cancelledDoc env order userId reason]>
                        (Orders.orders db1))) buyerDoc "cancelled") as (-> & _ & _).
      cbn [Orders.withOrders Orders.orders].
      pose proof (restoreStock_frame env (Orders.items order) db) as (Ho & _ & _).
      rewrite Hrestore in Ho. cbn [snd] in Ho. rewrite Ho.
      destruct (decide (id = orderId)) as [->|Hne];
        [|rewrite lookup_insert_ne by congruence; apply Hcur].
      rewrite lookup_insert_eq. intros [= <-].
      eexists _, _. split; reflexivity.
Qed.

Lemma cancelOrder_database env db orderId userId reason order' :
  Orders.returned (Orders.cancelOrder env db orderId userId reason) = inr order' ->
  exists order db1,
    Orders.orders db !! orderId = Some order
    /\ Orders.restoreStock env (Orders.items order) db = (None, db1)
    /\ order' = Orders.cancelledDoc env order userId reason
    /\ Orders.orders (Orders.database (Orders.cancelOrder env db orderId userId reason))
       = <[orderId := order']> (Orders.orders db)
    /\ Orders.members (Orders.database (Orders.cancelOrder env db orderId userId reason))
       = Orders.members db
    /\ Orders.products (Orders.database (Orders.cancelOrder env db orderId userId reason))
       = Orders.products db1
    /\ is_Some (Orders.members db !! Orders.buyer order).
Proof.
  intros Hret.
  destruct (cancelOrder_success _ _ _ _ _ _ Hret)
    as (order & buyerDoc & db1 & Horder & Hbuyer & _ & _ & Hrestore & Hdoc & Hdb).
  exists order, db1. rewrite Hdb.
  destruct (notifyBuyer_frame env
              (Orders.withOrders db1 (<[orderId := order']> (Orders.orders db1)))
              buyerDoc "cancelled") as (-> & -> & ->).
  pose proof (restoreStock_frame env (Orders.items order) db) as (Ho & Hm & _).
  rewrite Hrestore in Ho, Hm. cbn [snd] in Ho, Hm. cbn. rewrite Ho, Hm.
  repeat split; eauto.
Qed.

(** X24. [cancelOrder] returns the order only to its buyer or to a seller of
    one of its items, and only when the order is neither completed nor
    cancelled; the order is then stored as cancelled, by the caller, with the
    reason given. After that no call of [cancelOrder] on this order succeeds,
    whoever calls, and such a call changes nothing: the stock is restored
    once. *)
Theorem cancelOrder_once
    (env : Orders.Env) (db : Orders.Db) (orderId userId : string) (reason : JsStr)
    (order' : Orders.Order) :
  Orders.returned (Orders.cancelOrder env db orderId userId reason) = inr order' ->
  (exists order,
     Orders.orders db !! orderId = Some order
     /\ (Orders.buyer order = userId \/ Orders.sellsIn order userId = true)
     /\ Orders.status order <> Orders.completed
     /\ Orders.status order <> Orders.cancelled
     /\ Orders.buyer order' = Orders.buyer order
     /\ Orders.items order' = Orders.items order)
  /\ Orders.status order' = Orders.cancelled
  /\ Orders.cancelledBy order' = Some userId
  /\ Orders.cancellationReason order' = reason
  /\ Orders.orders (Orders.database (Orders.cancelOrder env db orderId userId reason))
       !! orderId = Some order'
  /\ (forall env' userId' reason',
        (exists e,
           Orders.returned
             (Orders.cancelOrder env'
                (Orders.database (Orders.cancelOrder env db orderId userId reason))
                orderId userId' reason') = inl e)
        /\ Orders.database
             (Orders.cancelOrder env'
                (Orders.database (Orders.cancelOrder env db orderId userId reason))
                orderId userId' reason')
           = Orders.database (Orders.cancelOrder env db orderId userId reason)).
Proof.
  intros Hret.
  destruct (cancelOrder_success _ _ _ _ _ _ Hret)
    as (order & buyerDoc & db1 & Horder & Hbuyer & Hwho & Hcan & _ & Hdoc & _).
  destruct (cancelOrder_database _ _ _ _ _ _ Hret)
    as (order0 & db1' & Horder0 & _ & _ & Ho & Hm & _ & _).
  assert (Hstored :
    Orders.orders (Orders.database (Orders.cancelOrder env db orderId userId reason))
      !! orderId = Some order') by (rewrite Ho; apply lookup_insert_eq).
  split; [|split; [|split; [|split; [|split]]]].
  - exists order. subst order'. repeat split; auto;
      intros Hs; unfold Orders.canBeCancelled in Hcan; rewrite Hs in Hcan; discriminate.
  - now subst order'.
  - now subst order'.
  - now subst order'.
  - exact Hstored.
  - intros env' userId' reason'.
    set (db2 := Orders.database (Orders.cancelOrder env db orderId userId reason)) in *.
    unfold Orders.cancelOrder.
    destruct (Orders.dbRejects env' Orders.findOrder); [cbn; eauto|].
    assert (Hsame : Orders.buyer order' = Orders.buyer order) by now subst order'.
    assert (Hdone : Orders.canBeCancelled order' = false) by now subst order'.
    rewrite Hstored, Hm, Hsame, Hbuyer, Hdone.
    destruct (negb _ && negb _); cbn; eauto.
Qed.

(** X25. A cancellation that returns the order has restored the stock: when
    the items of the order name distinct products, each of these products
    that exists has its stock increased by the quantity of its item, a
    sold-out product being active again exactly when its new stock is
    positive and any other product keeping its status; the products the order
    does not name are untouched. *)
Theorem cancelOrder_restores_stock
    (env : Orders.Env) (db : Orders.Db) (orderId userId : string) (reason : JsStr)
    (order' : Orders.Order) :
  Orders.returned (Orders.cancelOrder env db orderId userId reason) = inr order' ->
  NoDup (map Orders.product (Orders.items order')) ->
  (forall item, In item (Orders.items order') ->
   forall p, Orders.products db !! Orders.product item = Some p ->
     exists p',
       Orders.products (Orders.database (Orders.cancelOrder env db orderId userId reason))
         !! Orders.product item = Some p'
       /\ Orders.stock p' = Orders.add (Orders.stock p) (Orders.quantity item)
       /\ (Orders.productStatus p = Orders.sold ->
           Orders.productStatus p'
           = if Orders.ltb Orders.zero (Orders.stock p') then Orders.active
             else Orders.sold)
       /\ (Orders.productStatus p <> Orders.sold ->
           Orders.productStatus p' = Orders.productStatus p))
  /\ (forall id, ~ In id (map Orders.product (Orders.items order')) ->
        Orders.products (Orders.database (Orders.cancelOrder env db orderId userId reason))
          !! id = Orders.products db !! id).
Proof.
  intros Hret Hnodup.
  destruct (cancelOrder_database _ _ _ _ _ _ Hret)
    as (order & db1 & _ & Hrestore & Hdoc & _ & _ & Hp & _).
  assert (Hitems : Orders.items order' = Orders.items order) by now subst order'.
  rewrite Hitems in *. rewrite Hp.
  destruct (restoreStock_products _ _ _ _ Hrestore Hnodup) as [Hframe Heffect].
  split; [|exact Hframe].
  intros item Hin p Hprod. exists (Orders.restocked p (Orders.quantity item)).
  split; [now apply Heffect|]. split; [reflexivity|].
  unfold Orders.restocked. cbn. split.
  - now intros ->.
  - intros Hns. destruct (Orders.productStatus p); congruence.
Qed.

End OrderProperties.

Lemma updateOrderStatus_transitions_witness :
  Orders.statusIn
    (Orders.database
       (Orders.updateOrderStatus Orders.calmEnv Orders.exampleDb "o" "s" "processing" ""))
    "o"
  = Some Orders.processing.
Proof.
  destruct (updateOrderStatus_transitions Orders.calmEnv Orders.exampleDb "o" "s"
              "processing" "") as [H _].
  destruct (H "o") as [Hsame|(_ & _ & [[_ Hp]|[_ Hc]])].
  - vm_compute in Hsame. discriminate Hsame.
  - exact Hp.
  - vm_compute in Hc. discriminate Hc.
Defined.

Lemma updateOrderStatus_never_completes_witness :
  Orders.statusIn
    (Orders.updateAll
       [{| Orders.callEnv := Orders.calmEnv; Orders.callOrderId := "o";
           Orders.callUserId := "s"; Orders.callStatus := "processing";
           Orders.callNote := "" |};
        {| Orders.callEnv := Orders.calmEnv; Orders.callOrderId := "o";
           Orders.callUserId := "s"; Orders.callStatus := "ready_for_pickup";
           Orders.callNote := "" |};
        {| Orders.callEnv := Orders.calmEnv; Orders.callOrderId := "o";
           Orders.callUserId := "s"; Orders.callStatus := "completed";
           Orders.callNote := "" |}]
       Orders.exampleDb) "o"
  <> Some Orders.completed.
Proof.
  apply updateOrderStatus_never_completes. vm_compute. discriminate.
Defined.

Lemma updateOrderStatus_saved_then_fails_witness :
  Orders.returned
    (Orders.updateOrderStatus Orders.calmEnv Orders.orphanDb "o" "s" "processing" "")
  = inl Orders.typeError
  /\ Orders.statusIn
       (Orders.database
          (Orders.updateOrderStatus Orders.calmEnv Orders.orphanDb "o" "s" "processing" ""))
       "o"
     = Some Orders.processing.
Proof.
  apply (updateOrderStatus_saved_then_fails Orders.calmEnv Orders.orphanDb "o" "s" ""
           Orders.exampleOrder); reflexivity.
Defined.

Lemma exampleDb_histories : Orders.historiesCurrent Orders.exampleDb.
Proof.
  intros id order Hid. cbn in Hid.
  apply lookup_singleton_Some in Hid as [_ <-].
  exists [], {| Orders.entryStatus := "pending"; Orders.updatedBy := None;
                Orders.timestamp := 1; Orders.note := Some "Order created" |}.
  split; reflexivity.
Qed.

Lemma status_history_stays_current_witness :
  Orders.historiesCurrent
    (Orders.database (Orders.cancelOrder Orders.calmEnv Orders.exampleDb "o" "b" None)).
Proof.
  destruct (status_history_stays_current Orders.calmEnv Orders.exampleDb "o" "b"
              exampleDb_histories) as [_ H].
  apply H.
Defined.

Lemma cancelOrder_once_witness :
  exists order',
    Orders.returned (Orders.cancelOrder Orders.calmEnv Orders.exampleDb "o" "b" None)
    = inr order'
    /\ Orders.status order' = Orders.cancelled
    /\ exists e,
         Orders.returned
           (Orders.cancelOrder Orders.calmEnv
              (Orders.database
                 (Orders.cancelOrder Orders.calmEnv Orders.exampleDb "o" "b" None))
              "o" "s" None) = inl e.
Proof.
  eexists. split; [reflexivity|].
  destruct (cancelOrder_once Orders.calmEnv Orders.exampleDb "o" "b" None _ eq_refl)
    as (_ & Hstatus & _ & _ & _ & Hagain).
  split; [exact Hstatus|]. apply Hagain.
Defined.

Lemma cancelOrder_restores_stock_witness :
  exists p',
    Orders.products
      (Orders.database (Orders.cancelOrder Orders.calmEnv Orders.exampleDb "o" "b" None))
      !! "p" = Some p'
    /\ Orders.stock p' = 2%Z
    /\ Orders.productStatus p' = Orders.active.
Proof.
  destruct (cancelOrder_restores_stock Orders.calmEnv Orders.exampleDb "o" "b" None _
              eq_refl) as [Heffect _].
  { cbn. repeat constructor. rewrite list_elem_of_In. intros []. }
  destruct (Heffect (@Orders.Build_Item Orders.wholeNumbers "p" "s" 2%Z 10%Z)
              ltac:(now left)
              (@Orders.Build_Product Orders.wholeNumbers 0%Z Orders.sold) eq_refl)
    as (p' & Hp' & Hstock & Hsold & _).
  exists p'. split; [exact Hp'|]. split; [exact Hstock|].
  rewrite (Hsold eq_refl), Hstock. reflexivity.
Defined.
